(** * scuttlespace-lib: the [id ...] command dispatcher of [modules/auth]

    A shallow embedding of [src/modules/auth/index.ts]: the name validator
    [isValidIdentity], the status resolver [checkIdentityStatus] with the
    SQL join it runs, and the dispatcher [handle].

    Conventions.
    - JavaScript strings are modelled as [string]; the commands of this
      module are ASCII text, and [toLowerCase] is modelled on the ASCII
      letters.
    - An [async] function is a computation in the monad [M]: it threads the
      world (the database and the log of the reads issued against it) and
      ends normally or by throwing (a rejected promise).
    - The tables are lists of rows, in storage order; a query result is the
      list of joined rows in nested-loop order, and [.get] is its first row. *)

From Stdlib Require Import Ascii String List Bool Arith Lia.
From stdpp Require Import base option list strings gmap.

Open Scope string_scope.

(** ** Characters and strings *)

Module JsString.

Definition code (c : ascii) : nat := nat_of_ascii c.

(** [lo <= c <= hi] on character codes, as in a class range [lo-hi]. *)
Definition between (lo hi c : ascii) : bool :=
  Nat.leb (code lo) (code c) && Nat.leb (code c) (code hi).

Definition is_upper (c : ascii) : bool := between "A" "Z" c.
Definition is_lower (c : ascii) : bool := between "a" "z" c.
Definition is_digit (c : ascii) : bool := between "0" "9" c.

Definition lower_char (c : ascii) : ascii :=
  if is_upper c then ascii_of_nat (code c + 32) else c.

(** [String.prototype.toLowerCase] *)
Fixpoint toLowerCase (s : string) : string :=
  match s with
  | EmptyString => EmptyString
  | String c s' => String (lower_char c) (toLowerCase s')
  end.

(** [String.prototype.startsWith]: [startsWith s p] is [s.startsWith(p)]. *)
Fixpoint startsWith (s p : string) : bool :=
  match p, s with
  | EmptyString, _ => true
  | String _ _, EmptyString => false
  | String a p', String b s' => Ascii.eqb a b && startsWith s' p'
  end.

(** [Array.prototype.join] with the default separator. *)
Fixpoint join (l : list string) : string :=
  match l with
  | [] => ""
  | [s] => s
  | s :: l' => s ++ "," ++ join l'
  end.

(** Every character of [s] satisfies [p]. *)
Fixpoint all_chars (p : ascii -> bool) (s : string) : bool :=
  match s with
  | EmptyString => true
  | String c s' => p c && all_chars p s'
  end.

(** Some character of [s] satisfies [p]. *)
Fixpoint some_char (p : ascii -> bool) (s : string) : bool :=
  match s with
  | EmptyString => false
  | String c s' => p c || some_char p s'
  end.

End JsString.

(** ** Regular expressions *)

Module Regex.
Import JsString.

(** An item of a character class: a range [a-z] or a single character. *)
Inductive ClassItem : Type :=
| Range (lo hi : ascii)
| Single (c : ascii).

Definition in_item (c : ascii) (it : ClassItem) : bool :=
  match it with
  | Range lo hi => between lo hi c
  | Single d => Ascii.eqb c d
  end.

Definition in_class (items : list ClassItem) (c : ascii) : bool :=
  existsb (in_item c) items.

Inductive re : Type :=
| Void
| Eps
| AnyChar
| Class (items : list ClassItem)
| Cat (r1 r2 : re)
| Alt (r1 r2 : re)
| Star (r : re).

(** The quantifier [r+]. *)
Definition Plus (r : re) : re := Cat r (Star r).

(** A pattern literal: the body and whether it is anchored by [^] and [$]
    (no flags, so [$] is the end of the input). *)
Record Pattern : Type := mkPattern {
  anchor_start : bool;
  body : re;
  anchor_end : bool
}.

Fixpoint nullable (r : re) : bool :=
  match r with
  | Void => false
  | Eps => true
  | AnyChar => false
  | Class _ => false
  | Cat r1 r2 => nullable r1 && nullable r2
  | Alt r1 r2 => nullable r1 || nullable r2
  | Star _ => true
  end.

Fixpoint deriv (c : ascii) (r : re) : re :=
  match r with
  | Void => Void
  | Eps => Void
  | AnyChar => Eps
  | Class items => if in_class items c then Eps else Void
  | Cat r1 r2 =>
      if nullable r1
      then Alt (Cat (deriv c r1) r2) (deriv c r2)
      else Cat (deriv c r1) r2
  | Alt r1 r2 => Alt (deriv c r1) (deriv c r2)
  | Star r1 => Cat (deriv c r1) (Star r1)
  end.

(** The whole of [s] matches [r]. *)
Fixpoint full_match (r : re) (s : string) : bool :=
  match s with
  | EmptyString => nullable r
  | String c s' => full_match (deriv c r) s'
  end.

(** [RegExp.prototype.test]: some substring matches the body; an anchor
    pins the corresponding end of that substring to the end of the input. *)
Definition test (p : Pattern) (s : string) : bool :=
  full_match
    (Cat (if anchor_start p then Eps else Star AnyChar)
         (Cat (body p) (if anchor_end p then Eps else Star AnyChar)))
    s.

(** The language of an expression. *)
Inductive Matches : re -> string -> Prop :=
| MEps : Matches Eps ""
| MAny c : Matches AnyChar (String c "")
| MClass items c : in_class items c = true -> Matches (Class items) (String c "")
| MCat r1 r2 s1 s2 : Matches r1 s1 -> Matches r2 s2 -> Matches (Cat r1 r2) (s1 ++ s2)
| MAltL r1 r2 s : Matches r1 s -> Matches (Alt r1 r2) s
| MAltR r1 r2 s : Matches r2 s -> Matches (Alt r1 r2) s
| MStarNil r : Matches (Star r) ""
| MStarCons r s1 s2 : Matches r s1 -> Matches (Star r) s2 -> Matches (Star r) (s1 ++ s2).

End Regex.

(** ** JavaScript values *)

(** The values a parsed-arguments object can hold under a key, and
    [undefined] for a key it does not hold. *)
Inductive JSValue : Type :=
| JUndefined
| JBool (b : bool)
| JString (s : string)
| JArray (l : list string).

(** The abstract operation ToString, applied by [regex.test] to its argument. *)
Definition ToString (v : JSValue) : string :=
  match v with
  | JUndefined => "undefined"
  | JBool true => "true"
  | JBool false => "false"
  | JString s => s
  | JArray l => JsString.join l
  end.

(** The object returned by the parser: option names to captured values. *)
Abbreviation Args := (gmap string JSValue).

(** Property access [args.key]. *)
Definition get_prop (args : Args) (key : string) : JSValue :=
  default JUndefined (args !! key).

(** ** The identity name validator *)

(** [/^[a-z][a-z0-9_]+$/] *)
Definition regex : Regex.Pattern :=
  Regex.mkPattern true
    (Regex.Cat (Regex.Class [Regex.Range "a" "z"])
               (Regex.Plus (Regex.Class [Regex.Range "a" "z"; Regex.Range "0" "9"; Regex.Single "_"])))
    true.

Definition isValidIdentity (username : JSValue) : bool :=
  Regex.test regex (ToString username).

(** ** The store *)

(** Table [identity]. The query reads [name] and [enabled]; [domain] is the
    optional custom domain of the data model. *)
Record IdentityRow : Type := mkIdentityRow {
  i_name : string;
  i_enabled : bool;
  i_domain : option string
}.

(** Table [user]. *)
Record UserRow : Type := mkUserRow {
  u_sender : string;
  u_primary_identity_name : option string
}.

(** Table [user_identity], the memberships. *)
Record UserIdentityRow : Type := mkUserIdentityRow {
  ui_identity_name : string;
  ui_user_pubkey : string;
  ui_membership_type : string
}.

Record Db : Type := mkDb {
  identity : list IdentityRow;
  user : list UserRow;
  user_identity : list UserIdentityRow
}.

(** A row of the join, with the column aliases of the SELECT. *)
Module Row.
Record t : Type := mk {
  enabled : bool;
  identityName : string;
  membershipType : string;
  primaryIdentityName : option string;
  sender : string
}.
End Row.

(** A bound SQL parameter. *)
Inductive SqlValue : Type :=
| SqlNull
| SqlText (s : string).

(** [column = $param]: a comparison with NULL is never true. *)
Definition sql_eq (column : string) (p : SqlValue) : bool :=
  match p with
  | SqlNull => false
  | SqlText s => String.eqb column s
  end.

(** The join of [checkIdentityStatus]. The query has no ORDER BY, so SQL
    does not fix the order of its rows; the model lists them by nested loops
    over the tables in storage order, [user_identity] outermost. The general
    theorems below use only which rows the join holds, not their order; the
    sample runs on stores with several members, as the one of C1, show the
    order of the model.
    <<
    SELECT i.enabled as enabled, i.name as identityName,
           ui.membership_type as membershipType,
           u.primary_identity_name as primaryIdentityName, u.sender as sender
    FROM user_identity ui
    JOIN identity i ON ui.identity_name = i.name
    JOIN user u on ui.user_pubkey = u.sender
    WHERE identity_name=$identityName
    >> *)
Definition select_identity (d : Db) (p : SqlValue) : list Row.t :=
  flat_map (fun ui =>
    flat_map (fun i =>
      flat_map (fun u =>
        if String.eqb (ui_identity_name ui) (i_name i)
           && String.eqb (ui_user_pubkey ui) (u_sender u)
           && sql_eq (ui_identity_name ui) p
        then [Row.mk (i_enabled i) (i_name i) (ui_membership_type ui)
                     (u_primary_identity_name u) (u_sender u)]
        else [])
      (user d))
    (identity d))
  (user_identity d).

(** ** Computations *)

(** A read issued against the store: the join, with the value bound to
    [$identityName]. *)
Inductive Event : Type :=
| DbRead (p : SqlValue).

Record World : Type := mkWorld {
  db : Db;
  reads : list Event
}.

Inductive Completion (A : Type) : Type :=
| Normal (a : A)
| Thrown (e : string).
Arguments Normal {A} a.
Arguments Thrown {A} e.

Definition M (A : Type) : Type := World -> Completion A * World.

Definition ret {A} (a : A) : M A := fun w => (Normal a, w).

Definition bindM {A B} (m : M A) (k : A -> M B) : M B :=
  fun w =>
    match m w with
    | (Normal a, w') => k a w'
    | (Thrown e, w') => (Thrown e, w')
    end.

(** A synchronous call that returns or throws. *)
Definition lift {A} (c : Completion A) : M A := fun w => (c, w).

Notation "x <~ c ;; k" := (bindM c (fun x => k))
  (at level 100, c at next level, right associativity).

(** ** Messages and responses *)

(** The fields of [IMessage] this module reads. *)
Module IMessage.
Record t : Type := mk {
  id : string;
  sender : string
}.
End IMessage.

(** [new Response(text, messageId)] *)
Record Response : Type := mkResponse {
  response_text : string;
  response_messageId : string
}.

(** ** The identity status resolver *)

Inductive Role : Type := ADMIN | MEMBER.

Module IExistingIdentityResult.
Record t : Type := mk {
  status : Role;
  enabled : bool;
  identityName : string;
  membershipType : string;
  primaryIdentityName : option string;
  sender : string
}.
End IExistingIdentityResult.

Inductive IdentityStatusCheckResult : Type :=
| EXISTING (r : IExistingIdentityResult.t)
| AVAILABLE
| TAKEN.

(** The handle returned by [getDb()]: the database of the world. *)
Inductive DbHandle : Type := TheDb.

(** Modelled from the spec: [getDb] of the module [db] (not part of the
    sources). Sections 1 and 7: the store is an external collaborator, and a
    failure to reach it is handled above this module and is not modelled;
    so [getDb] returns the handle, reads nothing and changes nothing. *)
Definition getDb : M DbHandle := ret TheDb.

Section Driver.

(** What the database driver binds for a value that is not a string, or
    the error it throws. A string is bound as text. *)
Variable driver_bind : JSValue -> Completion SqlValue.

Definition bind_param (v : JSValue) : Completion SqlValue :=
  match v with
  | JString s => Normal (SqlText s)
  | _ => driver_bind v
  end.

(** [db.prepare(SELECT ...).get({ identityName })]: binds the parameter,
    runs the join and returns its first row, or [undefined] ([None]). *)
Definition prepare_get (h : DbHandle) (identityName : JSValue) : M (option Row.t) :=
  p <~ lift (bind_param identityName) ;;
  fun w =>
    (Normal (head (select_identity (db w) p)),
     mkWorld (db w) (reads w ++ [DbRead p])).

Definition checkIdentityStatus (identityName : JSValue) (sender : string)
  : M IdentityStatusCheckResult :=
  db <~ getDb ;;
  identity <~ prepare_get db identityName ;;
  match identity with
  | None => ret AVAILABLE
  | Some identity =>
      if String.eqb (Row.sender identity) sender
      then ret (EXISTING
             (IExistingIdentityResult.mk
                (if String.eqb (Row.membershipType identity) "ADMIN" then ADMIN else MEMBER)
                (Row.enabled identity)
                (Row.identityName identity)
                (Row.membershipType identity)
                (Row.primaryIdentityName identity)
                sender))
      else ret TAKEN
  end.

(** ** The dispatcher *)

(** A handler of a sibling module ([create-identity], [already-taken],
    [modify-identity]): it runs against the database and returns a
    response or nothing, or throws. *)
Definition Handler : Type := Db -> Completion (option Response) * Db.

(** A call of a handler. The log holds the reads issued by this module: a
    handler leaves it as it is. *)
Definition call (h : Handler) : M (option Response) :=
  fun w => let (r, d) := h (db w) in (r, mkWorld d (reads w)).

Section Dispatcher.

(** The parser built by [humanist] from the table of options; it
    returns the parsed arguments or throws. *)
Variable parser : string -> Completion Args.

Variable createIdentity : JSValue -> string -> string -> IMessage.t -> Handler.
Variable alreadyTaken : JSValue -> string -> string -> IMessage.t -> Handler.
Variable modifyIdentity :
  IExistingIdentityResult.t -> Args -> string -> IMessage.t -> Handler.

(** The type of the third argument, which [handle] never reads. *)
Variable IMessageSource : Type.

Definition handle (command : string) (message : IMessage.t)
    (msgSource : IMessageSource) : M (option Response) :=
  let lcaseCommand := JsString.toLowerCase command in
  if JsString.startsWith lcaseCommand "id " then
    args <~ lift (parser command) ;;
    let identityName := get_prop args "id" in
    let sender := IMessage.sender message in
    if isValidIdentity identityName then
      identityStatus <~ checkIdentityStatus identityName (IMessage.sender message) ;;
      match identityStatus with
      | AVAILABLE => call (createIdentity identityName sender command message)
      | TAKEN => call (alreadyTaken identityName sender command message)
      | EXISTING r => call (modifyIdentity r args command message)
      end
    else ret None
  else ret None.

End Dispatcher.

End Driver.

Definition didNotUnderstand (command : string) (message : IMessage.t) : M Response :=
  ret (mkResponse
         ("Sorry I did not follow the instruction '" ++ command
            ++ "'. See https://scuttle.space/help.")
         (IMessage.id message)).

(** ** The command grammar *)

Module Humanist.

(** The table given to [humanist] in [index.ts]. *)
Definition options : list (string * nat) :=
  [("id", 1); ("enable", 0); ("disable", 0); ("destroy", 0);
   ("domain", 1); ("admin", 1); ("member", 1); ("remove", 1)].

Definition arity (word : string) : option nat :=
  snd <$> find (fun o => String.eqb (fst o) word) options.

(** The words of a command, separated by single spaces. *)
Fixpoint words_from (cur : string) (s : string) : list string :=
  match s with
  | EmptyString => [cur]
  | String c s' =>
      if Ascii.eqb c " " then cur :: words_from "" s'
      else words_from (cur ++ String c "") s'
  end.

Definition words (s : string) : list string := words_from "" s.

(** Modelled from the spec: the parser built by [humanist] (the library is
    not part of the sources). Section 4.1: an option name, matched with
    its case, captures as many following words as its arity; an unknown
    word or a missing required value makes the string unparseable. *)
Fixpoint parse_words (fuel : nat) (ws : list string) (acc : Args) : option Args :=
  match fuel, ws with
  | _, [] => Some acc
  | O, _ :: _ => None
  | S fuel', w :: rest =>
      match arity w with
      | None => None
      | Some 0 => parse_words fuel' rest (<[w := JBool true]> acc)
      | Some 1 =>
          match rest with
          | v :: rest' => parse_words fuel' rest' (<[w := JString v]> acc)
          | [] => None
          end
      | Some n =>
          if Nat.leb n (length rest)
          then parse_words fuel' (skipn n rest) (<[w := JArray (firstn n rest)]> acc)
          else None
      end
  end.

(** Modelled from the spec: the result of the [humanist] parser on a
    command. Section 4.1 has an unparseable string fail without throwing:
    the object returned then holds no value under any option name. *)
Definition parser (command : string) : Completion Args :=
  let ws := words command in
  match parse_words (length ws) ws ∅ with
  | Some args => Normal args
  | None => Normal ∅
  end.

End Humanist.

(** ** The lifecycle and role engine *)

Module Engine.

(** The parsed intent: the identity name and the modifiers of the command,
    one field per option of the grammar. *)
Record Intent : Type := mkIntent {
  id : string;
  member : option string;
  admin : option string;
  remove : option string;
  domain : option string;
  enable : bool;
  disable : bool;
  destroy : bool
}.

Inductive Modifier : Type :=
| GrantMember (x : string)
| GrantAdmin (x : string)
| RemoveMember (x : string)
| SetDomain (d : string)
| Enable
| Disable
| Destroy.

Inductive Rejection : Type :=
| NotAuthorized
| Conflict
| InvariantViolation.

Inductive MutationResult : Type :=
| Accepted (d : Db)
| Rejected (why : Rejection).

Definition of_option {A} (f : A -> Modifier) (o : option A) : list Modifier :=
  match o with Some a => [f a] | None => [] end.

Definition of_flag (m : Modifier) (b : bool) : list Modifier :=
  if b then [m] else [].

(** Modelled from the spec: the modifiers of a command in the order the
    engine of [modify-identity] (not part of the sources) processes them.
    Section 4.4: role grants and removals, then the domain, then
    enable/disable, then destroy. *)
Definition role_modifiers (i : Intent) : list Modifier :=
  of_option GrantMember (member i) ++ of_option GrantAdmin (admin i)
    ++ of_option RemoveMember (remove i).

Definition setting_modifiers (i : Intent) : list Modifier :=
  of_option SetDomain (domain i) ++ of_flag Enable (enable i)
    ++ of_flag Disable (disable i).

Definition modifiers (i : Intent) : list Modifier :=
  (role_modifiers i ++ setting_modifiers i) ++ of_flag Destroy (destroy i).

Definition is_membership (name x : string) (ui : UserIdentityRow) : bool :=
  String.eqb (ui_identity_name ui) name && String.eqb (ui_user_pubkey ui) x.

Definition is_admin_row (name : string) (ui : UserIdentityRow) : bool :=
  String.eqb (ui_identity_name ui) name && String.eqb (ui_membership_type ui) "ADMIN".

(** [x] holds an ADMIN row on [name] and no other sender does. *)
Definition last_admin (name x : string) (d : Db) : bool :=
  existsb (fun ui => is_admin_row name ui && String.eqb (ui_user_pubkey ui) x)
          (user_identity d)
  && negb (existsb (fun ui => is_admin_row name ui && negb (String.eqb (ui_user_pubkey ui) x))
                   (user_identity d)).

Definition ensure_user (x : string) (us : list UserRow) : list UserRow :=
  if existsb (fun u => String.eqb (u_sender u) x) us then us
  else us ++ [mkUserRow x None].

(** Sets the membership of [x] on [name] to [ty], creating the row if [x]
    has none, and the user row of [x] if absent. *)
Definition set_membership (name x ty : string) (d : Db) : Db :=
  mkDb (identity d)
       (ensure_user x (user d))
       (if existsb (is_membership name x) (user_identity d)
        then map (fun ui => if is_membership name x ui
                            then mkUserIdentityRow name x ty else ui)
                 (user_identity d)
        else user_identity d ++ [mkUserIdentityRow name x ty]).

Definition delete_membership (name x : string) (d : Db) : Db :=
  mkDb (identity d) (user d)
       (List.filter (fun ui => negb (is_membership name x ui)) (user_identity d)).

Definition update_identity (name : string) (f : IdentityRow -> IdentityRow) (d : Db) : Db :=
  mkDb (map (fun i => if String.eqb (i_name i) name then f i else i) (identity d))
       (user d) (user_identity d).

Definition is_enabled (name : string) (d : Db) : bool :=
  existsb (fun i => String.eqb (i_name i) name && i_enabled i) (identity d).

Definition delete_identity (name : string) (d : Db) : Db :=
  mkDb (List.filter (fun i => negb (String.eqb (i_name i) name)) (identity d))
       (user d)
       (List.filter (fun ui => negb (String.eqb (ui_identity_name ui) name)) (user_identity d)).

(** Modelled from the spec: one modifier applied on behalf of an ADMIN, as
    the engine of [modify-identity] (not part of the sources) does.
    Sections 3 and 4.4: [member X] grants MEMBER to X and [admin X] grants
    ADMIN; [remove X] deletes the membership of X; a removal or demotion
    of the last ADMIN is rejected; [domain], [enable] and [disable] update
    the identity row; [destroy] deletes the identity and all its
    memberships, and is rejected while the identity is enabled. *)
Definition apply_modifier (name : string) (m : Modifier) (d : Db) : MutationResult :=
  match m with
  | GrantMember x =>
      if last_admin name x d then Rejected InvariantViolation
      else Accepted (set_membership name x "MEMBER" d)
  | GrantAdmin x => Accepted (set_membership name x "ADMIN" d)
  | RemoveMember x =>
      if last_admin name x d then Rejected InvariantViolation
      else Accepted (delete_membership name x d)
  | SetDomain dom =>
      Accepted (update_identity name
                  (fun i => mkIdentityRow (i_name i) (i_enabled i) (Some dom)) d)
  | Enable =>
      Accepted (update_identity name
                  (fun i => mkIdentityRow (i_name i) true (i_domain i)) d)
  | Disable =>
      Accepted (update_identity name
                  (fun i => mkIdentityRow (i_name i) false (i_domain i)) d)
  | Destroy =>
      if is_enabled name d then Rejected InvariantViolation
      else Accepted (delete_identity name d)
  end.

(** The modifiers of one command run as one atomic unit: the first
    rejection rejects the whole command. *)
Fixpoint run_modifiers (name : string) (ms : list Modifier) (d : Db) : MutationResult :=
  match ms with
  | [] => Accepted d
  | m :: ms' =>
      match apply_modifier name m d with
      | Accepted d' => run_modifiers name ms' d'
      | Rejected why => Rejected why
      end
  end.

Definition claim_user (caller name : string) (us : list UserRow) : list UserRow :=
  if existsb (fun u => String.eqb (u_sender u) caller) us
  then map (fun u =>
              if String.eqb (u_sender u) caller
              then mkUserRow (u_sender u)
                     (match u_primary_identity_name u with
                      | None => Some name
                      | Some p => Some p
                      end)
              else u) us
  else us ++ [mkUserRow caller (Some name)].

(** Modelled from the spec: the creation of an identity, as
    [create-identity] (not part of the sources) does. Section 4.4: an
    enabled Identity row and an ADMIN membership of the caller, whose
    primary identity is set if unset; section 5: the uniqueness of the
    name is enforced by the store and surfaces as "already taken". *)
Definition create (name caller : string) (d : Db) : MutationResult :=
  if existsb (fun i => String.eqb (i_name i) name) (identity d)
  then Rejected Conflict
  else Accepted (mkDb (identity d ++ [mkIdentityRow name true None])
                      (claim_user caller name (user d))
                      (user_identity d ++ [mkUserIdentityRow name caller "ADMIN"])).

(** Modelled from the spec: [apply(status, parsedIntent, senderId)] of
    section 4.4, the engine behind [create-identity], [already-taken] and
    [modify-identity] (not part of the sources). On AVAILABLE the
    modifiers of the command are ignored. *)
Definition apply (status : IdentityStatusCheckResult) (i : Intent) (senderId : string)
    (d : Db) : MutationResult :=
  match status with
  | AVAILABLE => create (id i) senderId d
  | TAKEN => Rejected Conflict
  | EXISTING r =>
      match IExistingIdentityResult.status r with
      | ADMIN => run_modifiers (id i) (modifiers i) d
      | MEMBER =>
          match modifiers i with
          | [] => Accepted d
          | _ :: _ => Rejected NotAuthorized
          end
      end
  end.

(** The database after a command: a rejection leaves it as it was. *)
Definition commit (r : MutationResult) (d : Db) : Db :=
  match r with
  | Accepted d' => d'
  | Rejected _ => d
  end.

End Engine.

(** ** The outcome of the resolver *)

(** The result built from a row of the join for the caller. *)
Definition existing_of (row : Row.t) (sender : string) : IExistingIdentityResult.t :=
  IExistingIdentityResult.mk
    (if String.eqb (Row.membershipType row) "ADMIN" then ADMIN else MEMBER)
    (Row.enabled row) (Row.identityName row) (Row.membershipType row)
    (Row.primaryIdentityName row) sender.

(** The status read off the first row of the join: the case analysis of
    [checkIdentityStatus], used to state what a run returns. *)
Definition status_of (first : option Row.t) (sender : string) : IdentityStatusCheckResult :=
  match first with
  | None => AVAILABLE
  | Some row =>
      if String.eqb (Row.sender row) sender then EXISTING (existing_of row sender)
      else TAKEN
  end.

(** ** The registry as a state machine *)

Section Registry.

Variable driver_bind : JSValue -> Completion SqlValue.

(** One command, as one atomic unit against the store: the resolver reads
    the status of the caller, the engine applies the intent. *)
Definition run_command (i : Engine.Intent) (caller : string) : M Engine.MutationResult :=
  status <~ checkIdentityStatus driver_bind (JString (Engine.id i)) caller ;;
  fun w =>
    let r := Engine.apply status i caller (db w) in
    (Normal r, mkWorld (Engine.commit r (db w)) (reads w)).

Definition empty_world : World := mkWorld (mkDb [] [] []) [].

(** The worlds reached from the empty registry by running commands. *)
Inductive reachable : World -> Prop :=
| reachable_empty : reachable empty_world
| reachable_step w i caller :
    reachable w -> reachable (snd (run_command i caller w)).

(** The commands [id name], [id name remove x], [id name member x] and
    [id name admin x]. *)
Definition claim_command (name : string) : Engine.Intent :=
  Engine.mkIntent name None None None None false false false.

Definition remove_command (name x : string) : Engine.Intent :=
  Engine.mkIntent name None None (Some x) None false false false.

Definition member_command (name x : string) : Engine.Intent :=
  Engine.mkIntent name (Some x) None None None false false false.

Definition admin_command (name x : string) : Engine.Intent :=
  Engine.mkIntent name None (Some x) None None false false false.

End Registry.

(** The identity [name] has a membership row. *)
Definition has_membership (name : string) (d : Db) : Prop :=
  exists ui, In ui (user_identity d) /\ ui_identity_name ui = name.

(** The identity [name] has a membership row of type ADMIN. *)
Definition has_admin (name : string) (d : Db) : Prop :=
  exists ui, In ui (user_identity d) /\ ui_identity_name ui = name
             /\ ui_membership_type ui = "ADMIN".

(** The admin invariant of the registry. *)
Definition admin_invariant (d : Db) : Prop :=
  forall name, has_membership name d -> has_admin name d.

(** [d'] has the rows of [d] on every identity other than [name]. *)
Definition frame (name : string) (d d' : Db) : Prop :=
  (forall ui, In ui (user_identity d') -> ui_identity_name ui <> name ->
              In ui (user_identity d))
  /\ (forall ui, In ui (user_identity d) -> ui_identity_name ui <> name ->
                 In ui (user_identity d')).

(** ** Shapes of identity names *)

(** A character allowed after the first: lowercase letter, digit, underscore. *)
Definition name_char (c : ascii) : bool :=
  JsString.is_lower c || JsString.is_digit c || Ascii.eqb c "_".

(** A lowercase letter followed by one or more name characters. *)
Definition name_shape (s : string) : Prop :=
  exists c rest,
    s = String c rest /\ JsString.is_lower c = true
    /\ 1 <= String.length rest /\ JsString.all_chars name_char rest = true.

(** ** Sample data *)

Module Sample.

(** A driver that binds every value that is not a string as NULL. *)
Definition null_driver (v : JSValue) : Completion SqlValue := Normal SqlNull.

(** A driver that refuses every value that is not a string. *)
Definition strict_driver (v : JSValue) : Completion SqlValue :=
  Thrown "TypeError: cannot bind the parameter".

(** The identity [alice] with the admin [S1] and the member [S2]. *)
Definition two_members : Db :=
  mkDb [mkIdentityRow "alice" true None]
       [mkUserRow "S1" (Some "alice"); mkUserRow "S2" None]
       [mkUserIdentityRow "alice" "S1" "ADMIN"; mkUserIdentityRow "alice" "S2" "MEMBER"].

(** An identity row [alice] on which nobody holds a membership. *)
Definition no_membership : Db :=
  mkDb [mkIdentityRow "alice" false None] [mkUserRow "S1" None] [].

Definition respond (text : string) (message : IMessage.t) : option Response :=
  Some (mkResponse text (IMessage.id message)).

Definition string_of (o : option JSValue) : option string :=
  match o with Some (JString s) => Some s | _ => None end.

Definition flag_of (o : option JSValue) : bool :=
  match o with Some (JBool b) => b | _ => false end.

Definition intent_of (name : string) (args : Args) : Engine.Intent :=
  Engine.mkIntent name
    (string_of (args !! "member")) (string_of (args !! "admin"))
    (string_of (args !! "remove")) (string_of (args !! "domain"))
    (flag_of (args !! "enable")) (flag_of (args !! "disable"))
    (flag_of (args !! "destroy")).

Definition answer (r : Engine.MutationResult) (message : IMessage.t) (d : Db)
  : Completion (option Response) * Db :=
  match r with
  | Engine.Accepted d' => (Normal (respond "done" message), d')
  | Engine.Rejected Engine.NotAuthorized => (Normal (respond "not authorized" message), d)
  | Engine.Rejected Engine.Conflict => (Normal (respond "already taken" message), d)
  | Engine.Rejected Engine.InvariantViolation =>
      (Normal (respond "invariant violation" message), d)
  end.

(** Modelled from the spec: the handler of [create-identity] (not part of
    the sources), as the engine of section 4.4 on the status AVAILABLE. *)
Definition createIdentity (identityName : JSValue) (sender command : string)
    (message : IMessage.t) (d : Db) : Completion (option Response) * Db :=
  match identityName with
  | JString name => answer (Engine.create name sender d) message d
  | _ => (Thrown "TypeError: the identity name is not a string", d)
  end.

(** Modelled from the spec: the handler of [already-taken] (not part of the
    sources). Section 4.4: an "already taken" outcome, no mutation. *)
Definition alreadyTaken (identityName : JSValue) (sender command : string)
    (message : IMessage.t) (d : Db) : Completion (option Response) * Db :=
  (Normal (respond "already taken" message), d).

(** Modelled from the spec: the handler of [modify-identity] (not part of
    the sources), as the engine of section 4.4 on an EXISTING status. *)
Definition modifyIdentity (identityStatus : IExistingIdentityResult.t) (args : Args)
    (command : string) (message : IMessage.t) (d : Db)
  : Completion (option Response) * Db :=
  answer
    (Engine.apply (EXISTING identityStatus)
       (intent_of (IExistingIdentityResult.identityName identityStatus) args)
       (IExistingIdentityResult.sender identityStatus) d)
    message d.

(** [handle] with the grammar and the handlers above. *)
Definition handle (driver_bind : JSValue -> Completion SqlValue)
    (command : string) (message : IMessage.t) : M (option Response) :=
  handle driver_bind Humanist.parser createIdentity alreadyTaken modifyIdentity
         unit command message tt.

End Sample.

(** ** More sample data *)

Module SampleStores.

(** The identity [alice] with its creator [S1] as only member. *)
Definition one_member : Db :=
  mkDb [mkIdentityRow "alice" true None]
       [mkUserRow "S1" (Some "alice"); mkUserRow "S2" None]
       [mkUserIdentityRow "alice" "S1" "ADMIN"].

(** [alice] with the members [S1] and [S2], after a membership of [S2] on
    another identity [bob]. *)
Definition with_bob : Db :=
  mkDb [mkIdentityRow "alice" true None; mkIdentityRow "bob" true None]
       [mkUserRow "S1" (Some "alice"); mkUserRow "S2" None]
       [mkUserIdentityRow "bob" "S2" "ADMIN";
        mkUserIdentityRow "alice" "S1" "ADMIN";
        mkUserIdentityRow "alice" "S2" "MEMBER"].

(** An identity that is named [undefined], held by [S1]. *)
Definition named_undefined : Db :=
  mkDb [mkIdentityRow "undefined" true None]
       [mkUserRow "S1" (Some "undefined")]
       [mkUserIdentityRow "undefined" "S1" "ADMIN"].

(** Handlers that answer without touching the database. *)
Definition quiet (text : string) (identityName : JSValue) (sender command : string)
    (message : IMessage.t) (d : Db) : Completion (option Response) * Db :=
  (Normal (Sample.respond text message), d).

Definition quiet_modify (identityStatus : IExistingIdentityResult.t) (args : Args)
    (command : string) (message : IMessage.t) (d : Db)
  : Completion (option Response) * Db :=
  (Normal (Sample.respond "yours" message), d).

End SampleStores.

(** * Properties *)

(** ** The matcher computes the language of an expression *)

Module RegexFacts.
Import JsString Regex.

Lemma append_cons c (s1 s2 : string) : String c s1 ++ s2 = String c (s1 ++ s2).
Proof. reflexivity. Qed.

Lemma append_empty_l (s : string) : "" ++ s = s.
Proof. reflexivity. Qed.

Lemma append_empty_r (s : string) : s ++ "" = s.
Proof.
  induction s as [|c s IH]; [reflexivity |].
  now rewrite append_cons, IH.
Qed.

Lemma append_eq_empty (s1 s2 : string) : s1 ++ s2 = "" -> s1 = "" /\ s2 = "".
Proof.
  destruct s1; [rewrite append_empty_l | rewrite append_cons]; intros H;
    [split; [reflexivity | exact H] | discriminate].
Qed.

Lemma matches_empty_nullable r s : Matches r s -> s = "" -> nullable r = true.
Proof.
  induction 1; intros Hs; simpl; try discriminate; try reflexivity.
  - apply append_eq_empty in Hs as [-> ->].
    rewrite IHMatches1, IHMatches2; reflexivity.
  - rewrite IHMatches; [reflexivity | assumption].
  - rewrite IHMatches; [apply orb_true_r | assumption].
Qed.

Lemma nullable_matches_empty r : nullable r = true -> Matches r "".
Proof.
  induction r; simpl; intros H; try discriminate.
  - constructor.
  - apply andb_prop in H as [H1 H2].
    change "" with ("" ++ ""). constructor; auto.
  - apply orb_prop in H as [H|H]; [apply MAltL | apply MAltR]; auto.
  - constructor.
Qed.

Lemma deriv_sound c r : forall s, Matches (deriv c r) s -> Matches r (String c s).
Proof.
  induction r; simpl; intros s H.
  - inversion H.
  - inversion H.
  - inversion H; subst. constructor.
  - destruct (in_class items c) eqn:E; inversion H; subst. now constructor.
  - destruct (nullable r1) eqn:N.
    + inversion H as [| | | | ? ? ? HL | ? ? ? HR | |]; subst.
      * inversion HL; subst.
        change (String c (s1 ++ s2)) with (String c s1 ++ s2).
        constructor; auto.
      * change (String c s) with ("" ++ String c s).
        constructor; [now apply nullable_matches_empty | auto].
    + inversion H; subst.
      change (String c (s1 ++ s2)) with (String c s1 ++ s2).
      constructor; auto.
  - inversion H; subst; [apply MAltL | apply MAltR]; auto.
  - inversion H; subst.
    change (String c (s1 ++ s2)) with (String c s1 ++ s2).
    constructor; auto.
Qed.

Lemma deriv_complete c r t :
  Matches r t -> forall s, t = String c s -> Matches (deriv c r) s.
Proof.
  induction 1; intros s' Hs; simpl; try discriminate.
  - inversion Hs; subst. constructor.
  - inversion Hs; subst. rewrite H. constructor.
  - destruct s1 as [|c1 s1]; [rewrite append_empty_l in Hs | rewrite append_cons in Hs].
    + rewrite (matches_empty_nullable _ _ H eq_refl).
      apply MAltR. auto.
    + inversion Hs; subst.
      assert (Matches (Cat (deriv c r1) r2) (s1 ++ s2)) by (constructor; auto).
      destruct (nullable r1); [apply MAltL |]; assumption.
  - apply MAltL; auto.
  - apply MAltR; auto.
  - destruct s1 as [|c1 s1]; [rewrite append_empty_l in Hs | rewrite append_cons in Hs].
    + apply (IHMatches2 _ Hs).
    + inversion Hs; subst. constructor; auto.
Qed.

Lemma full_match_spec s : forall r, full_match r s = true <-> Matches r s.
Proof.
  induction s as [|c s IH]; intros r; simpl.
  - split; [apply nullable_matches_empty | intros H; now apply (matches_empty_nullable r "")].
  - rewrite IH. split; [apply deriv_sound | intros H; now apply (deriv_complete c r _ H)].
Qed.

Lemma matches_eps s : Matches Eps s <-> s = "".
Proof. split; [inversion 1; reflexivity | intros ->; constructor]. Qed.

Lemma matches_cat r1 r2 s :
  Matches (Cat r1 r2) s <-> exists s1 s2, s = s1 ++ s2 /\ Matches r1 s1 /\ Matches r2 s2.
Proof.
  split.
  - inversion 1; subst; eauto.
  - intros (s1 & s2 & -> & H1 & H2). now constructor.
Qed.

Lemma matches_class items s :
  Matches (Class items) s <-> exists c, s = String c "" /\ in_class items c = true.
Proof.
  split.
  - inversion 1; subst; eauto.
  - intros (c & -> & H). now constructor.
Qed.

Lemma matches_star_class_all items r s :
  Matches r s -> r = Star (Class items) -> all_chars (in_class items) s = true.
Proof.
  induction 1; intros Hr; try discriminate; [reflexivity |].
  inversion Hr; subst.
  inversion H as [| | ? c Hc | | | | |]; subst.
  rewrite append_cons, append_empty_l. simpl.
  rewrite Hc, IHMatches2; reflexivity.
Qed.

Lemma matches_star_class items s :
  Matches (Star (Class items)) s <-> all_chars (in_class items) s = true.
Proof.
  split; [intros H; now apply (matches_star_class_all items _ s H) |].
  induction s as [|c s IH]; simpl; intros H; [constructor |].
  apply andb_prop in H as [Hc Hs].
  change (String c s) with (String c "" ++ s).
  constructor; [now constructor | auto].
Qed.

(** An anchored pattern tests the whole input against its body. *)
Lemma test_anchored r s :
  test (mkPattern true r true) s = true <-> Matches r s.
Proof.
  unfold test; simpl anchor_start; simpl anchor_end; simpl body.
  rewrite full_match_spec, matches_cat. split.
  - intros (s1 & s2 & -> & H1 & H2).
    apply matches_eps in H1 as ->. rewrite append_empty_l.
    apply matches_cat in H2 as (t1 & t2 & -> & H3 & H4).
    apply matches_eps in H4 as ->. now rewrite append_empty_r.
  - intros H. exists "", s. repeat split; [constructor |].
    apply matches_cat. exists s, "".
    rewrite append_empty_r. repeat split; [assumption | constructor].
Qed.

End RegexFacts.

(** ** The identity name validator *)

Module ValidatorFacts.
Import JsString Regex RegexFacts.

Lemma between_spec lo hi c :
  between lo hi c = true <-> code lo <= code c /\ code c <= code hi.
Proof.
  unfold between. rewrite andb_true_iff, !Nat.leb_le. reflexivity.
Qed.

Lemma first_class c : in_class [Range "a" "z"] c = is_lower c.
Proof. unfold in_class; simpl. apply orb_false_r. Qed.

Lemma rest_class c :
  in_class [Range "a" "z"; Range "0" "9"; Single "_"] c = name_char c.
Proof.
  unfold in_class, name_char; simpl.
  fold (is_lower c); fold (is_digit c).
  now rewrite orb_false_r, orb_assoc.
Qed.

Lemma all_chars_ext p q s :
  (forall c, p c = q c) -> all_chars p s = all_chars q s.
Proof. intros E. induction s as [|c s IH]; simpl; [reflexivity | now rewrite E, IH]. Qed.

Lemma isValidIdentity_shape s : isValidIdentity (JString s) = true <-> name_shape s.
Proof.
  unfold isValidIdentity, regex, Plus, name_shape. simpl ToString.
  rewrite test_anchored, matches_cat. split.
  - intros (s1 & s2 & -> & H1 & H2).
    apply matches_class in H1 as (c & -> & Hc).
    apply matches_cat in H2 as (t1 & t2 & -> & H3 & H4).
    apply matches_class in H3 as (d & -> & Hd).
    apply matches_star_class in H4.
    exists c, (String d t2).
    rewrite first_class in Hc. rewrite rest_class in Hd.
    rewrite (all_chars_ext _ name_char) in H4 by apply rest_class.
    repeat split; [assumption | simpl; lia |].
    simpl. now rewrite Hd, H4.
  - intros (c & rest & -> & Hc & Hlen & Hall).
    destruct rest as [|d rest]; [simpl in Hlen; lia |].
    simpl in Hall. apply andb_prop in Hall as [Hd Hrest].
    exists (String c ""), (String d rest). repeat split.
    + apply matches_class. exists c. now rewrite first_class.
    + apply matches_cat. exists (String d ""), rest. repeat split.
      * apply matches_class. exists d. now rewrite rest_class.
      * apply matches_star_class.
        now rewrite (all_chars_ext _ name_char) by apply rest_class.
Qed.

Lemma not_shape_invalid s : ~ name_shape s -> isValidIdentity (JString s) = false.
Proof.
  intros H. destruct (isValidIdentity (JString s)) eqn:E; [| reflexivity].
  apply isValidIdentity_shape in E. contradiction.
Qed.

Lemma lower_is_name_char c : is_lower c = true -> name_char c = true.
Proof. unfold name_char. now intros ->. Qed.

Lemma shape_all_name_chars s : name_shape s -> all_chars name_char s = true.
Proof.
  intros (c & rest & -> & Hc & _ & Hall). simpl.
  now rewrite (lower_is_name_char c Hc), Hall.
Qed.

Lemma some_char_not_all p s :
  some_char (fun c => negb (p c)) s = true -> all_chars p s = false.
Proof.
  induction s as [|c s IH]; simpl; [discriminate |].
  destruct (p c); simpl; [exact IH | reflexivity].
Qed.

Lemma some_char_impl (p q : ascii -> bool) s :
  (forall c, p c = true -> q c = true) -> some_char p s = true -> some_char q s = true.
Proof.
  intros Hpq. induction s as [|c s IH]; simpl; [discriminate |].
  intros H. apply orb_prop in H as [H|H].
  - now rewrite (Hpq c H).
  - rewrite (IH H). apply orb_true_r.
Qed.

Lemma upper_not_name_char c : is_upper c = true -> negb (name_char c) = true.
Proof.
  unfold is_upper, name_char, is_lower, is_digit. intros H.
  apply between_spec in H. change (code "A") with 65 in H. change (code "Z") with 90 in H.
  apply negb_true_iff. apply orb_false_iff; split; [apply orb_false_iff; split |].
  - apply not_true_is_false. rewrite between_spec.
    change (code "a") with 97. lia.
  - apply not_true_is_false. rewrite between_spec.
    change (code "9") with 57. lia.
  - apply not_true_is_false. intros E. apply Ascii.eqb_eq in E. subst c.
    change (code "_") with 95 in H. lia.
Qed.

Lemma digit_not_lower c : is_digit c = true -> is_lower c = false.
Proof.
  unfold is_digit, is_lower. intros H. apply between_spec in H.
  change (code "9") with 57 in H.
  apply not_true_is_false. rewrite between_spec. change (code "a") with 97. lia.
Qed.

End ValidatorFacts.

(** C4. For every string token, [isValidIdentity] returns true exactly when
    the token is a lowercase letter followed by one or more lowercase
    letters, digits or underscores; a token that contains an uppercase
    letter, starts with a digit, has fewer than two characters or contains
    any other character is rejected. *)
Theorem isValidIdentity_accepts_exactly_names :
  (forall s, isValidIdentity (JString s) = true <-> name_shape s)
  /\ (forall s, JsString.some_char JsString.is_upper s = true ->
                isValidIdentity (JString s) = false)
  /\ (forall c rest, JsString.is_digit c = true ->
                     isValidIdentity (JString (String c rest)) = false)
  /\ (forall s, String.length s < 2 -> isValidIdentity (JString s) = false)
  /\ (forall s, JsString.some_char (fun c => negb (name_char c)) s = true ->
                isValidIdentity (JString s) = false).
Proof.
  split; [exact ValidatorFacts.isValidIdentity_shape |].
  assert (Hother : forall s,
             JsString.some_char (fun c => negb (name_char c)) s = true ->
             isValidIdentity (JString s) = false).
  { intros s H. apply ValidatorFacts.not_shape_invalid. intros Hs.
    apply ValidatorFacts.shape_all_name_chars in Hs.
    apply ValidatorFacts.some_char_not_all in H. congruence. }
  repeat split.
  - intros s H. apply Hother.
    revert H. apply ValidatorFacts.some_char_impl.
    exact ValidatorFacts.upper_not_name_char.
  - intros c rest Hd. apply ValidatorFacts.not_shape_invalid.
    intros (c' & rest' & E & Hc & _). inversion E; subst.
    rewrite (ValidatorFacts.digit_not_lower _ Hd) in Hc. discriminate.
  - intros s Hlen. apply ValidatorFacts.not_shape_invalid.
    intros (c & rest & -> & _ & Hrest & _). simpl in Hlen. lia.
  - exact Hother.
Qed.

Example isValidIdentity_jeswin : isValidIdentity (JString "jeswin") = true.
Proof. reflexivity. Qed.

Example isValidIdentity_rejects :
  map (fun s => isValidIdentity (JString s)) ["Jeswin"; "9lives"; "j"; ""; "a-b"; "ab "]
  = [false; false; false; false; false; false].
Proof. reflexivity. Qed.

(** ** The identity status resolver *)

Module ResolverFacts.

(** The rows of the join, one per membership row on the name whose
    identity row and user row exist. *)
Lemma in_select_identity d p row :
  In row (select_identity d p) <->
  exists ui i u,
    In ui (user_identity d) /\ In i (identity d) /\ In u (user d)
    /\ ui_identity_name ui = i_name i /\ ui_user_pubkey ui = u_sender u
    /\ sql_eq (ui_identity_name ui) p = true
    /\ row = Row.mk (i_enabled i) (i_name i) (ui_membership_type ui)
                    (u_primary_identity_name u) (u_sender u).
Proof.
  unfold select_identity. rewrite in_flat_map. split.
  - intros (ui & Hui & H). apply in_flat_map in H as (i & Hi & H).
    apply in_flat_map in H as (u & Hu & H).
    destruct (String.eqb_spec (ui_identity_name ui) (i_name i)) as [E1|]; [| destruct H].
    destruct (String.eqb_spec (ui_user_pubkey ui) (u_sender u)) as [E2|]; [| destruct H].
    destruct (sql_eq (ui_identity_name ui) p) eqn:E3; [| destruct H].
    destruct H as [<- | []]. exists ui, i, u. repeat split; assumption.
  - intros (ui & i & u & Hui & Hi & Hu & E1 & E2 & E3 & ->).
    exists ui. split; [assumption |]. apply in_flat_map.
    exists i. split; [assumption |]. apply in_flat_map.
    exists u. split; [assumption |].
    rewrite E1, E2, !String.eqb_refl. rewrite E1 in E3. rewrite E3. now left.
Qed.

Lemma sql_eq_text column s : sql_eq column (SqlText s) = true <-> column = s.
Proof. simpl. apply String.eqb_eq. Qed.

Section Run.

Variable driver_bind : JSValue -> Completion SqlValue.

(** A run of the resolver on a name: it returns, the database is the
    same, and the log holds one more read. *)
Lemma checkIdentityStatus_run name sender w :
  checkIdentityStatus driver_bind (JString name) sender w
  = (Normal (status_of (head (select_identity (db w) (SqlText name))) sender),
     mkWorld (db w) (reads w ++ [DbRead (SqlText name)])).
Proof.
  unfold checkIdentityStatus, getDb, prepare_get, bindM, ret, lift, status_of, existing_of.
  simpl.
  destruct (head (select_identity (db w) (SqlText name))) as [row|]; [| reflexivity].
  destruct (String.eqb (Row.sender row) sender); reflexivity.
Qed.

(** A run on any value whose binding succeeds. *)
Lemma checkIdentityStatus_run_bound v p sender w :
  bind_param driver_bind v = Normal p ->
  checkIdentityStatus driver_bind v sender w
  = (Normal (status_of (head (select_identity (db w) p)) sender),
     mkWorld (db w) (reads w ++ [DbRead p])).
Proof.
  intros Hb.
  unfold checkIdentityStatus, getDb, prepare_get, bindM, ret, lift, status_of, existing_of.
  rewrite Hb.
  destruct (head (select_identity (db w) p)) as [row|]; [| reflexivity].
  destruct (String.eqb (Row.sender row) sender); reflexivity.
Qed.

(** A run on a value the driver refuses to bind. *)
Lemma checkIdentityStatus_run_thrown v e sender w :
  bind_param driver_bind v = Thrown e ->
  checkIdentityStatus driver_bind v sender w = (Thrown e, w).
Proof.
  intros Hb.
  unfold checkIdentityStatus, getDb, prepare_get, bindM, ret, lift.
  now rewrite Hb.
Qed.

End Run.

Lemma head_in {A} (l : list A) (x : A) : head l = Some x -> In x l.
Proof. destruct l; simpl; [discriminate | intros [= ->]; now left]. Qed.

(** What an EXISTING result says about the store and about itself. *)
Lemma existing_result :
  forall (driver_bind : JSValue -> Completion SqlValue) (name sender : string) (w : World)
         (r : IExistingIdentityResult.t),
    fst (checkIdentityStatus driver_bind (JString name) sender w) = Normal (EXISTING r) ->
    (exists ui, In ui (user_identity (db w))
                /\ ui_identity_name ui = name /\ ui_user_pubkey ui = sender
                /\ ui_membership_type ui = IExistingIdentityResult.membershipType r)
    /\ (IExistingIdentityResult.status r = ADMIN
        <-> IExistingIdentityResult.membershipType r = "ADMIN")
    /\ (IExistingIdentityResult.membershipType r <> "ADMIN"
        -> IExistingIdentityResult.status r = MEMBER).
Proof.
  intros driver_bind name sender w r.
  rewrite checkIdentityStatus_run. simpl.
  unfold status_of.
  destruct (head (select_identity (db w) (SqlText name))) as [row|] eqn:Hrow;
    [| discriminate].
  destruct (String.eqb_spec (Row.sender row) sender) as [Hs|]; [| discriminate].
  intros [= <-]. unfold existing_of; simpl.
  apply head_in, in_select_identity in Hrow
    as (ui & i & u & Hui & _ & _ & _ & E2 & E3 & ->).
  apply sql_eq_text in E3. simpl in Hs.
  split; [exists ui; repeat split; congruence |].
  simpl. destruct (String.eqb_spec (ui_membership_type ui) "ADMIN") as [E|E].
  - split; [split; auto | intros C; contradiction].
  - split; [split; [discriminate | intros C; contradiction] | reflexivity].
Qed.

(** An ADMIN status witnesses an ADMIN row on the identity. *)
Lemma admin_status_has_admin driver_bind name sender w r :
  fst (checkIdentityStatus driver_bind (JString name) sender w) = Normal (EXISTING r) ->
  IExistingIdentityResult.status r = ADMIN ->
  has_admin name (db w).
Proof.
  intros H Hs. apply existing_result in H as ((ui & Hui & Hn & _ & Ht) & Hiff & _).
  exists ui. repeat split; [assumption | assumption |].
  rewrite Ht. now apply Hiff.
Qed.

End ResolverFacts.

(** C8. A call of the resolver on an identity name returns a status, issues
    exactly one read against the store (the join by that name) and leaves
    the database as it was. *)
Theorem checkIdentityStatus_one_read_no_write :
  forall (driver_bind : JSValue -> Completion SqlValue) (name sender : string) (w : World),
    (exists st, fst (checkIdentityStatus driver_bind (JString name) sender w) = Normal st)
    /\ db (snd (checkIdentityStatus driver_bind (JString name) sender w)) = db w
    /\ reads (snd (checkIdentityStatus driver_bind (JString name) sender w))
       = (reads w ++ [DbRead (SqlText name)])%list.
Proof.
  intros driver_bind name sender w.
  rewrite ResolverFacts.checkIdentityStatus_run. simpl.
  split; [eexists; reflexivity | split; reflexivity].
Qed.

(** C7. When the resolver returns an EXISTING result, the caller holds a
    membership row on the identity, the result carries the membership type
    stored in that row, and its status is ADMIN exactly when that type is
    the string ADMIN, and MEMBER for every other type. *)
Theorem existing_status_mirrors_membershipType :
  forall (driver_bind : JSValue -> Completion SqlValue) (name sender : string) (w : World)
         (r : IExistingIdentityResult.t),
    fst (checkIdentityStatus driver_bind (JString name) sender w) = Normal (EXISTING r) ->
    (exists ui, In ui (user_identity (db w))
                /\ ui_identity_name ui = name /\ ui_user_pubkey ui = sender
                /\ ui_membership_type ui = IExistingIdentityResult.membershipType r)
    /\ (IExistingIdentityResult.status r = ADMIN
        <-> IExistingIdentityResult.membershipType r = "ADMIN")
    /\ (IExistingIdentityResult.membershipType r <> "ADMIN"
        -> IExistingIdentityResult.status r = MEMBER).
Proof. exact ResolverFacts.existing_result. Qed.

Lemma existing_status_mirrors_membershipType_witness :
  fst (checkIdentityStatus Sample.null_driver (JString "alice") "S1"
         (mkWorld Sample.two_members []))
  = Normal (EXISTING (IExistingIdentityResult.mk ADMIN true "alice" "ADMIN" (Some "alice") "S1"))
  /\ (IExistingIdentityResult.status
        (IExistingIdentityResult.mk ADMIN true "alice" "ADMIN" (Some "alice") "S1") = ADMIN
      <-> "ADMIN" = "ADMIN").
Proof.
  split; [reflexivity |].
  apply (existing_status_mirrors_membershipType Sample.null_driver "alice" "S1"
           (mkWorld Sample.two_members [])
           (IExistingIdentityResult.mk ADMIN true "alice" "ADMIN" (Some "alice") "S1")).
  reflexivity.
Defined.

(** Only the first row of the join is looked at: a caller whose own row
    comes after the row of another sender is answered TAKEN. *)
Lemma later_row_is_taken :
  forall (driver_bind : JSValue -> Completion SqlValue) (name sender : string) (w : World)
         (first : Row.t) (others : list Row.t),
    select_identity (db w) (SqlText name) = first :: others ->
    Row.sender first <> sender ->
    fst (checkIdentityStatus driver_bind (JString name) sender w) = Normal TAKEN.
Proof.
  intros driver_bind name sender w first others Hrows Hne.
  rewrite ResolverFacts.checkIdentityStatus_run, Hrows. simpl.
  destruct (String.eqb_spec (Row.sender first) sender); [contradiction | reflexivity].
Qed.

(** C1. The join for [alice] yields the row of [S1] and then the row of
    [S2]; for the caller [S2], whose own row is in the join, the resolver
    returns TAKEN and not the EXISTING result built from that row. With the
    two membership rows stored in the other order it is the admin [S1] who
    is answered TAKEN. *)
Theorem member_behind_first_row_is_taken :
  select_identity Sample.two_members (SqlText "alice")
  = [Row.mk true "alice" "ADMIN" (Some "alice") "S1";
     Row.mk true "alice" "MEMBER" None "S2"]
  /\ fst (checkIdentityStatus Sample.null_driver (JString "alice") "S2"
            (mkWorld Sample.two_members []))
     = Normal TAKEN
  /\ fst (checkIdentityStatus Sample.null_driver (JString "alice") "S1"
            (mkWorld (mkDb (identity Sample.two_members) (user Sample.two_members)
                           (rev (user_identity Sample.two_members))) []))
     = Normal TAKEN.
Proof. repeat split; reflexivity. Qed.

(** C2, as stated, fails: an Identity row [alice] exists, no sender holds a
    membership on it, and the resolver returns AVAILABLE. *)
Lemma identity_without_membership_is_available :
  (exists i, In i (identity Sample.no_membership) /\ i_name i = "alice")
  /\ user_identity Sample.no_membership = []
  /\ fst (checkIdentityStatus Sample.null_driver (JString "alice") "S1"
            (mkWorld Sample.no_membership []))
     = Normal AVAILABLE.
Proof.
  split; [| split; reflexivity].
  exists (mkIdentityRow "alice" false None). split; [now left | reflexivity].
Qed.

(** C2, amended. The resolver returns AVAILABLE exactly when the join for
    the name is empty, that is when no membership row on that name has both
    its identity row and its user row; so it returns AVAILABLE when no
    Identity row with that name exists, and also when an Identity row exists
    but no membership row is held on it. *)
Theorem available_iff_join_empty :
  forall (driver_bind : JSValue -> Completion SqlValue) (name sender : string) (w : World),
    (fst (checkIdentityStatus driver_bind (JString name) sender w) = Normal AVAILABLE
     <-> ~ exists ui i u,
             In ui (user_identity (db w)) /\ In i (identity (db w)) /\ In u (user (db w))
             /\ ui_identity_name ui = name /\ i_name i = name
             /\ ui_user_pubkey ui = u_sender u)
    /\ ((forall i, In i (identity (db w)) -> i_name i <> name) ->
        fst (checkIdentityStatus driver_bind (JString name) sender w) = Normal AVAILABLE)
    /\ ((forall ui, In ui (user_identity (db w)) -> ui_identity_name ui <> name) ->
        fst (checkIdentityStatus driver_bind (JString name) sender w) = Normal AVAILABLE).
Proof.
  intros driver_bind name sender w.
  assert (Hiff :
    fst (checkIdentityStatus driver_bind (JString name) sender w) = Normal AVAILABLE
    <-> ~ exists ui i u,
            In ui (user_identity (db w)) /\ In i (identity (db w)) /\ In u (user (db w))
            /\ ui_identity_name ui = name /\ i_name i = name
            /\ ui_user_pubkey ui = u_sender u).
  { rewrite ResolverFacts.checkIdentityStatus_run. simpl. unfold status_of.
    destruct (select_identity (db w) (SqlText name)) as [|row rows] eqn:Hrows; simpl.
    - split; [| reflexivity]. intros _ (ui & i & u & Hui & Hi & Hu & E1 & E2 & E3).
      assert (Hin : In (Row.mk (i_enabled i) (i_name i) (ui_membership_type ui)
                          (u_primary_identity_name u) (u_sender u))
                       (select_identity (db w) (SqlText name))).
      { apply ResolverFacts.in_select_identity. exists ui, i, u.
        repeat split; try assumption; [congruence |].
        now apply ResolverFacts.sql_eq_text. }
      rewrite Hrows in Hin. destruct Hin.
    - split.
      + destruct (String.eqb (Row.sender row) sender); discriminate.
      + intros Hno. exfalso. apply Hno.
        assert (Hin : In row (select_identity (db w) (SqlText name)))
          by (rewrite Hrows; now left).
        apply ResolverFacts.in_select_identity in Hin
          as (ui & i & u & Hui & Hi & Hu & E1 & E2 & E3 & _).
        apply ResolverFacts.sql_eq_text in E3.
        exists ui, i, u. repeat split; try assumption. congruence. }
  split; [exact Hiff |]. split.
  - intros Hno. apply Hiff. intros (ui & i & u & _ & Hi & _ & _ & E & _).
    exact (Hno i Hi E).
  - intros Hno. apply Hiff. intros (ui & i & u & Hui & _ & _ & E & _).
    exact (Hno ui Hui E).
Qed.

(** ** The dispatcher *)

Section DispatcherFacts.

Variable driver_bind : JSValue -> Completion SqlValue.
Variable parser : string -> Completion Args.
Variable createIdentity : JSValue -> string -> string -> IMessage.t -> Handler.
Variable alreadyTaken : JSValue -> string -> string -> IMessage.t -> Handler.
Variable modifyIdentity :
  IExistingIdentityResult.t -> Args -> string -> IMessage.t -> Handler.
Variable IMessageSource : Type.

Local Abbreviation run_handle :=
  (handle driver_bind parser createIdentity alreadyTaken modifyIdentity IMessageSource).

(** The handler chosen for a status. *)
Local Abbreviation dispatch args command message :=
  (fun identityStatus =>
     match identityStatus with
     | AVAILABLE =>
         call (createIdentity (get_prop args "id") (IMessage.sender message) command message)
     | TAKEN =>
         call (alreadyTaken (get_prop args "id") (IMessage.sender message) command message)
     | EXISTING r => call (modifyIdentity r args command message)
     end).

Lemma handle_without_prefix command message src w :
  JsString.startsWith (JsString.toLowerCase command) "id " = false ->
  run_handle command message src w = (Normal None, w).
Proof. intros H. unfold handle. now rewrite H. Qed.

Lemma handle_parser_throws command message src w e :
  JsString.startsWith (JsString.toLowerCase command) "id " = true ->
  parser command = Thrown e ->
  run_handle command message src w = (Thrown e, w).
Proof. intros H Hp. unfold handle, bindM, lift. now rewrite H, Hp. Qed.

Lemma handle_invalid_name command message src w args :
  JsString.startsWith (JsString.toLowerCase command) "id " = true ->
  parser command = Normal args ->
  isValidIdentity (get_prop args "id") = false ->
  run_handle command message src w = (Normal None, w).
Proof. intros H Hp Hv. unfold handle, bindM, lift. now rewrite H, Hp, Hv. Qed.

Lemma handle_valid_name command message src w args :
  JsString.startsWith (JsString.toLowerCase command) "id " = true ->
  parser command = Normal args ->
  isValidIdentity (get_prop args "id") = true ->
  run_handle command message src w
  = bindM (checkIdentityStatus driver_bind (get_prop args "id") (IMessage.sender message))
          (dispatch args command message) w.
Proof. intros H Hp Hv. unfold handle, bindM at 1, lift. now rewrite H, Hp, Hv. Qed.

(** A run of the resolver that returns leaves the database as it was and
    adds one read to the log. *)
Lemma checkIdentityStatus_returns v sender w st w' :
  checkIdentityStatus driver_bind v sender w = (Normal st, w') ->
  db w' = db w /\ exists p, reads w' = (reads w ++ [DbRead p])%list.
Proof.
  destruct (bind_param driver_bind v) as [p|e] eqn:Hb.
  - rewrite (ResolverFacts.checkIdentityStatus_run_bound _ _ _ _ _ Hb).
    intros [= _ <-]. simpl. eauto.
  - rewrite (ResolverFacts.checkIdentityStatus_run_thrown _ _ _ _ _ Hb). discriminate.
Qed.

Lemma checkIdentityStatus_throws v sender w e w' :
  checkIdentityStatus driver_bind v sender w = (Thrown e, w') -> w' = w.
Proof.
  destruct (bind_param driver_bind v) as [p|e'] eqn:Hb.
  - rewrite (ResolverFacts.checkIdentityStatus_run_bound _ _ _ _ _ Hb). discriminate.
  - rewrite (ResolverFacts.checkIdentityStatus_run_thrown _ _ _ _ _ Hb). now intros [= _ <-].
Qed.

Lemma call_keeps_reads (h : Handler) w : reads (snd (call h w)) = reads w.
Proof. unfold call. destruct (h (db w)). reflexivity. Qed.

Lemma app_one_neq {A} (l : list A) (x : A) : (l ++ [x])%list <> l.
Proof.
  intros H. apply (f_equal (@List.length A)) in H.
  rewrite List.length_app in H. simpl in H. lia.
Qed.

(** Once the name has passed validation, the command is never unhandled:
    the resolver is reached, and either it throws or its read is logged. *)
Lemma handle_valid_name_not_unhandled command message src w args :
  JsString.startsWith (JsString.toLowerCase command) "id " = true ->
  parser command = Normal args ->
  isValidIdentity (get_prop args "id") = true ->
  run_handle command message src w <> (Normal None, w).
Proof.
  intros H Hp Hv. rewrite (handle_valid_name _ _ _ _ _ H Hp Hv). unfold bindM.
  destruct (checkIdentityStatus driver_bind (get_prop args "id") (IMessage.sender message) w)
    as [[st|e] w'] eqn:Hc; [| discriminate].
  apply checkIdentityStatus_returns in Hc as [_ [p Hr]].
  intros Heq. apply (f_equal (fun x => reads (snd x))) in Heq. simpl in Heq.
  destruct st; rewrite call_keeps_reads, Hr in Heq; exact (app_one_neq _ _ Heq).
Qed.

Lemma undefined_is_valid : isValidIdentity JUndefined = true.
Proof. reflexivity. Qed.

Lemma get_prop_missing (args : Args) key : args !! key = None -> get_prop args key = JUndefined.
Proof. unfold get_prop. now intros ->. Qed.

(** C5. If the lower-cased command does not start with [id ], or the
    identity name taken from the parsed arguments fails validation, [handle]
    returns nothing (undefined) and the world is untouched: no read is issued
    against the store and the database is not changed. *)
Theorem handle_unhandled_without_store_access :
  forall (command : string) (message : IMessage.t) (src : IMessageSource) (w : World),
    (JsString.startsWith (JsString.toLowerCase command) "id " = false
     \/ exists args, parser command = Normal args
                     /\ isValidIdentity (get_prop args "id") = false) ->
    run_handle command message src w = (Normal None, w).
Proof.
  intros command message src w [Hno | (args & Hp & Hv)].
  - now apply handle_without_prefix.
  - destruct (JsString.startsWith (JsString.toLowerCase command) "id ") eqn:H.
    + now apply (handle_invalid_name _ _ _ _ args).
    + now apply handle_without_prefix.
Qed.

(** C9. For a command that passes the prefix check, the parse and the name
    validation, [handle] runs the resolver and then the handler of the
    status it returned: create-identity for AVAILABLE, already-taken for
    TAKEN, modify-identity for every EXISTING status. The handler is run on
    the database as it was before the command; what it returns or throws is
    what [handle] returns or throws, and the database it leaves is the
    database after [handle]. With the already-taken handler modelled from
    the spec, a TAKEN status gives the "already taken" response and the
    database is not changed. *)
Theorem handle_dispatches_on_status :
  forall (command : string) (message : IMessage.t) (src : IMessageSource) (w w' : World)
         (args : Args) (identityStatus : IdentityStatusCheckResult),
    JsString.startsWith (JsString.toLowerCase command) "id " = true ->
    parser command = Normal args ->
    isValidIdentity (get_prop args "id") = true ->
    checkIdentityStatus driver_bind (get_prop args "id") (IMessage.sender message) w
      = (Normal identityStatus, w') ->
    db w' = db w
    /\ fst (run_handle command message src w)
       = fst (match identityStatus with
              | AVAILABLE =>
                  createIdentity (get_prop args "id") (IMessage.sender message)
                    command message
              | TAKEN =>
                  alreadyTaken (get_prop args "id") (IMessage.sender message)
                    command message
              | EXISTING r => modifyIdentity r args command message
              end (db w))
    /\ db (snd (run_handle command message src w))
       = snd (match identityStatus with
              | AVAILABLE =>
                  createIdentity (get_prop args "id") (IMessage.sender message)
                    command message
              | TAKEN =>
                  alreadyTaken (get_prop args "id") (IMessage.sender message)
                    command message
              | EXISTING r => modifyIdentity r args command message
              end (db w))
    /\ reads (snd (run_handle command message src w)) = reads w'
    /\ (identityStatus = TAKEN ->
        handle driver_bind parser createIdentity Sample.alreadyTaken modifyIdentity
               IMessageSource command message src w
        = (Normal (Some (mkResponse "already taken" (IMessage.id message))),
           mkWorld (db w) (reads w'))).
Proof.
  intros command message src w w' args st H Hp Hv Hc.
  destruct (checkIdentityStatus_returns _ _ _ _ _ Hc) as [Hdb _].
  assert (Hrun : run_handle command message src w
                 = dispatch args command message st w').
  { rewrite (handle_valid_name _ _ _ _ _ H Hp Hv). unfold bindM. now rewrite Hc. }
  split; [exact Hdb |].
  split; [| split; [| split]].
  - rewrite Hrun, <- Hdb. unfold call.
    destruct st;
      match goal with |- context [let (_, _) := ?h in _] => destruct h end; reflexivity.
  - rewrite Hrun, <- Hdb. unfold call.
    destruct st;
      match goal with |- context [let (_, _) := ?h in _] => destruct h end; reflexivity.
  - rewrite Hrun. destruct st; apply call_keeps_reads.
  - intros ->. unfold handle, bindM, lift. rewrite H, Hp, Hv, Hc.
    unfold call, Sample.alreadyTaken, Sample.respond. now rewrite Hdb.
Qed.

End DispatcherFacts.

Lemma handle_unhandled_without_store_access_witness :
  JsString.startsWith (JsString.toLowerCase "hello there") "id " = false
  /\ Sample.handle Sample.null_driver "hello there" (IMessage.mk "m1" "S1")
       (mkWorld Sample.two_members [])
     = (Normal None, mkWorld Sample.two_members []).
Proof.
  split; [reflexivity |].
  apply (handle_unhandled_without_store_access Sample.null_driver Humanist.parser
           Sample.createIdentity Sample.alreadyTaken Sample.modifyIdentity unit
           "hello there" (IMessage.mk "m1" "S1") tt (mkWorld Sample.two_members [])).
  left. reflexivity.
Defined.

(** An upper-case name is parsed and then fails validation. *)
Example handle_invalid_name_unhandled :
  Humanist.parser "ID Alice" = Normal ∅
  /\ Humanist.parser "id Alice" = Normal (<["id" := JString "Alice"]> ∅)
  /\ Sample.handle Sample.null_driver "id Alice" (IMessage.mk "m1" "S1")
       (mkWorld Sample.two_members [])
     = (Normal None, mkWorld Sample.two_members []).
Proof. repeat split; vm_compute; reflexivity. Qed.

Lemma handle_dispatches_on_status_witness :
  JsString.startsWith (JsString.toLowerCase "id alice") "id " = true
  /\ Humanist.parser "id alice" = Normal (<["id" := JString "alice"]> ∅)
  /\ isValidIdentity (get_prop (<["id" := JString "alice"]> ∅) "id") = true
  /\ fst (Sample.handle Sample.null_driver "id alice" (IMessage.mk "m2" "S3")
            (mkWorld Sample.two_members []))
     = fst (Sample.alreadyTaken (get_prop (<["id" := JString "alice"]> ∅) "id") "S3"
              "id alice" (IMessage.mk "m2" "S3") Sample.two_members).
Proof.
  split; [reflexivity |]. split; [vm_compute; reflexivity |]. split; [reflexivity |].
  assert (Hres : checkIdentityStatus Sample.null_driver
                   (get_prop (<["id" := JString "alice"]> ∅) "id") "S3"
                   (mkWorld Sample.two_members [])
                 = (Normal TAKEN, mkWorld Sample.two_members [DbRead (SqlText "alice")]))
    by (vm_compute; reflexivity).
  assert (Hparse : Humanist.parser "id alice" = Normal (<["id" := JString "alice"]> ∅))
    by (vm_compute; reflexivity).
  exact (proj1 (proj2 (handle_dispatches_on_status Sample.null_driver Humanist.parser
                         Sample.createIdentity Sample.alreadyTaken Sample.modifyIdentity
                         unit "id alice" (IMessage.mk "m2" "S3") tt
                         (mkWorld Sample.two_members [])
                         (mkWorld Sample.two_members [DbRead (SqlText "alice")])
                         (<["id" := JString "alice"]> ∅) TAKEN
                         eq_refl Hparse eq_refl Hres))).
Defined.

(** The three branches of the dispatch on sample commands: a free name is
    created, a name held by another sender is refused, the own name of an
    admin is modified. *)
Example handle_three_branches :
  Sample.handle Sample.null_driver "id bob" (IMessage.mk "m3" "S2")
    (mkWorld Sample.two_members [])
  = call (Sample.createIdentity (JString "bob") "S2" "id bob" (IMessage.mk "m3" "S2"))
         (mkWorld Sample.two_members [DbRead (SqlText "bob")])
  /\ Sample.handle Sample.null_driver "id alice" (IMessage.mk "m4" "S3")
       (mkWorld Sample.two_members [])
     = (Normal (Sample.respond "already taken" (IMessage.mk "m4" "S3")),
        mkWorld Sample.two_members [DbRead (SqlText "alice")])
  /\ Sample.handle Sample.null_driver "id alice disable" (IMessage.mk "m5" "S1")
       (mkWorld SampleStores.one_member [])
     = call (Sample.modifyIdentity
               (IExistingIdentityResult.mk ADMIN true "alice" "ADMIN" (Some "alice") "S1")
               (<["disable" := JBool true]> (<["id" := JString "alice"]> ∅))
               "id alice disable" (IMessage.mk "m5" "S1"))
            (mkWorld SampleStores.one_member [DbRead (SqlText "alice")]).
Proof. repeat split; vm_compute; reflexivity. Qed.

(** C6. The command [Id foo] passes the prefix check in lower case and the
    grammar, which matches option names with their case, cannot parse it;
    [handle] does not return nothing for it, whatever the driver does with
    the value: it runs the resolver on [undefined]. With a parser that
    throws, [handle] throws. *)
Theorem unparseable_command_is_not_unhandled :
  forall (driver_bind : JSValue -> Completion SqlValue) (message : IMessage.t) (w : World),
    JsString.startsWith (JsString.toLowerCase "Id foo") "id " = true
    /\ Humanist.parser "Id foo" = Normal ∅
    /\ Sample.handle driver_bind "Id foo" message w <> (Normal None, w)
    /\ handle driver_bind (fun _ => Thrown "cannot parse")
         Sample.createIdentity Sample.alreadyTaken Sample.modifyIdentity
         unit "Id foo" message tt w
       = (Thrown "cannot parse", w).
Proof.
  intros driver_bind message w.
  split; [reflexivity |]. split; [vm_compute; reflexivity |]. split.
  - apply (handle_valid_name_not_unhandled driver_bind Humanist.parser
             Sample.createIdentity Sample.alreadyTaken Sample.modifyIdentity unit
             "Id foo" message tt w ∅); reflexivity.
  - reflexivity.
Qed.

(** ** The admin invariant of the engine *)

Module EngineFacts.
Import Engine.

Lemma is_membership_spec name x ui :
  is_membership name x ui = true <-> ui_identity_name ui = name /\ ui_user_pubkey ui = x.
Proof. unfold is_membership. now rewrite andb_true_iff, !String.eqb_eq. Qed.

Lemma other_identity_not_membership name x ui :
  ui_identity_name ui <> name -> is_membership name x ui = false.
Proof.
  intros H. apply not_true_is_false. rewrite is_membership_spec. tauto.
Qed.

Lemma other_sender_not_membership name x ui :
  ui_user_pubkey ui <> x -> is_membership name x ui = false.
Proof.
  intros H. apply not_true_is_false. rewrite is_membership_spec. tauto.
Qed.

Lemma is_admin_row_spec name ui :
  is_admin_row name ui = true <-> ui_identity_name ui = name /\ ui_membership_type ui = "ADMIN".
Proof. unfold is_admin_row. now rewrite andb_true_iff, !String.eqb_eq. Qed.

Lemma invariant_frame_admin name d d' :
  admin_invariant d -> frame name d d' -> has_admin name d' -> admin_invariant d'.
Proof.
  intros Hinv [Hback Hkeep] Hadm n (ui & Hui & Hn).
  destruct (string_dec n name) as [-> | Hne]; [exact Hadm |].
  subst n. destruct (Hinv (ui_identity_name ui)) as (a & Ha & Han & Hat).
  - exists ui. split; [now apply Hback | reflexivity].
  - exists a. repeat split; try assumption. apply Hkeep; congruence.
Qed.

Lemma invariant_frame_empty name d d' :
  admin_invariant d -> frame name d d' -> ~ has_membership name d' -> admin_invariant d'.
Proof.
  intros Hinv [Hback Hkeep] Hnone n (ui & Hui & Hn).
  destruct (string_dec n name) as [-> | Hne].
  - exfalso. apply Hnone. now exists ui.
  - subst n. destruct (Hinv (ui_identity_name ui)) as (a & Ha & Han & Hat).
    + exists ui. split; [now apply Hback | reflexivity].
    + exists a. repeat split; try assumption. apply Hkeep; congruence.
Qed.

Lemma invariant_same_rows d d' :
  user_identity d' = user_identity d -> admin_invariant d -> admin_invariant d'.
Proof.
  intros E Hinv n (ui & Hui & Hn). rewrite E in Hui.
  destruct (Hinv n) as (a & Ha & Han & Hat); [now exists ui |].
  exists a. rewrite E. auto.
Qed.

Lemma has_admin_same_rows name d d' :
  user_identity d' = user_identity d -> has_admin name d -> has_admin name d'.
Proof. intros E (a & Ha & H). exists a. rewrite E. auto. Qed.

(** The rows after [set_membership]. *)
Lemma in_set_membership name x ty d ui :
  In ui (user_identity (set_membership name x ty d)) ->
  (In ui (user_identity d) /\ is_membership name x ui = false)
  \/ ui = mkUserIdentityRow name x ty.
Proof.
  unfold set_membership; simpl.
  destruct (existsb (is_membership name x) (user_identity d)) eqn:E.
  - intros H. apply in_map_iff in H as (u0 & Hu0 & Hin).
    destruct (is_membership name x u0) eqn:Em; [now right | left]. subst. auto.
  - intros H. apply in_app_iff in H as [H | [<- | []]]; [left | now right].
    split; [assumption |].
    destruct (is_membership name x ui) eqn:Em; [| reflexivity].
    assert (existsb (is_membership name x) (user_identity d) = true)
      by (apply existsb_exists; eauto).
    congruence.
Qed.

Lemma set_membership_keeps name x ty d ui :
  In ui (user_identity d) -> is_membership name x ui = false ->
  In ui (user_identity (set_membership name x ty d)).
Proof.
  intros Hin Em. unfold set_membership; simpl.
  destruct (existsb (is_membership name x) (user_identity d)).
  - apply in_map_iff. exists ui. now rewrite Em.
  - apply in_app_iff. now left.
Qed.

Lemma set_membership_sets name x ty d :
  In (mkUserIdentityRow name x ty) (user_identity (set_membership name x ty d)).
Proof.
  unfold set_membership; simpl.
  destruct (existsb (is_membership name x) (user_identity d)) eqn:E.
  - apply existsb_exists in E as (u0 & Hu0 & Em).
    apply in_map_iff. exists u0. now rewrite Em.
  - apply in_app_iff. right. now left.
Qed.

Lemma frame_set_membership name x ty d : frame name d (set_membership name x ty d).
Proof.
  split.
  - intros ui H Hne. apply in_set_membership in H as [[H _] | ->]; [assumption |].
    now contradiction Hne.
  - intros ui H Hne. apply set_membership_keeps; [assumption |].
    now apply other_identity_not_membership.
Qed.

Lemma in_delete_membership name x d ui :
  In ui (user_identity (delete_membership name x d)) <->
  In ui (user_identity d) /\ is_membership name x ui = false.
Proof.
  unfold delete_membership; simpl. rewrite filter_In, negb_true_iff. reflexivity.
Qed.

Lemma frame_delete_membership name x d : frame name d (delete_membership name x d).
Proof.
  split.
  - intros ui H _. now apply in_delete_membership in H.
  - intros ui H Hne. apply in_delete_membership. split; [assumption |].
    now apply other_identity_not_membership.
Qed.

(** When [x] is not the last admin, an ADMIN row of another sender exists. *)
Lemma admin_besides name x d :
  has_admin name d -> last_admin name x d = false ->
  exists a, In a (user_identity d) /\ ui_identity_name a = name
            /\ ui_membership_type a = "ADMIN" /\ ui_user_pubkey a <> x.
Proof.
  intros (a & Ha & Hn & Ht) Hlast.
  destruct (string_dec (ui_user_pubkey a) x) as [Hx | Hx]; [| exists a; auto].
  unfold last_admin in Hlast. apply andb_false_iff in Hlast as [Hl | Hl].
  - exfalso. apply not_true_iff_false in Hl. apply Hl.
    apply existsb_exists. exists a. split; [assumption |].
    apply andb_true_iff. split; [now apply is_admin_row_spec | now apply String.eqb_eq].
  - apply negb_false_iff, existsb_exists in Hl as (b & Hb & Hc).
    apply andb_true_iff in Hc as [Hc1 Hc2].
    apply is_admin_row_spec in Hc1 as [Hbn Hbt].
    apply negb_true_iff, String.eqb_neq in Hc2.
    exists b. auto.
Qed.

(** Conversely the last admin holds every ADMIN row of the identity. *)
Lemma last_admin_of_no_admin_besides name x d :
  has_admin name d ->
  (forall a, In a (user_identity d) -> ui_identity_name a = name ->
             ui_membership_type a = "ADMIN" -> ui_user_pubkey a = x) ->
  last_admin name x d = true.
Proof.
  intros Hadm Hall. destruct (last_admin name x d) eqn:E; [reflexivity |].
  destruct (admin_besides _ _ _ Hadm E) as (a & Ha & Hn & Ht & Hx).
  contradiction (Hx (Hall a Ha Hn Ht)).
Qed.

Lemma has_admin_after_set_member name x d :
  has_admin name d -> last_admin name x d = false ->
  has_admin name (set_membership name x "MEMBER" d).
Proof.
  intros Hadm Hlast. destruct (admin_besides _ _ _ Hadm Hlast) as (a & Ha & Hn & Ht & Hx).
  exists a. repeat split; try assumption.
  apply set_membership_keeps; [assumption | now apply other_sender_not_membership].
Qed.

Lemma has_admin_after_delete name x d :
  has_admin name d -> last_admin name x d = false ->
  has_admin name (delete_membership name x d).
Proof.
  intros Hadm Hlast. destruct (admin_besides _ _ _ Hadm Hlast) as (a & Ha & Hn & Ht & Hx).
  exists a. repeat split; try assumption.
  apply in_delete_membership. split; [assumption | now apply other_sender_not_membership].
Qed.

Lemma has_admin_after_set_admin name x d :
  has_admin name (set_membership name x "ADMIN" d).
Proof.
  exists (mkUserIdentityRow name x "ADMIN").
  split; [apply set_membership_sets | split; reflexivity].
Qed.

(** The invariant together with an ADMIN row on the identity at hand. *)
Lemma modifier_preserves name m d d' :
  m <> Destroy ->
  admin_invariant d -> has_admin name d ->
  apply_modifier name m d = Accepted d' ->
  admin_invariant d' /\ has_admin name d'.
Proof.
  intros Hm Hinv Hadm. destruct m as [x | x | x | dom | | |]; simpl.
  - destruct (last_admin name x d) eqn:E; [discriminate |]. intros [= <-].
    pose proof (has_admin_after_set_member _ _ _ Hadm E) as H.
    split; [| exact H].
    exact (invariant_frame_admin _ _ _ Hinv (frame_set_membership _ _ _ _) H).
  - intros [= <-]. pose proof (has_admin_after_set_admin name x d) as H.
    split; [| exact H].
    exact (invariant_frame_admin _ _ _ Hinv (frame_set_membership _ _ _ _) H).
  - destruct (last_admin name x d) eqn:E; [discriminate |]. intros [= <-].
    pose proof (has_admin_after_delete _ _ _ Hadm E) as H.
    split; [| exact H].
    exact (invariant_frame_admin _ _ _ Hinv (frame_delete_membership _ _ _) H).
  - intros [= <-]. split;
      [now apply (invariant_same_rows d) | now apply (has_admin_same_rows name d)].
  - intros [= <-]. split;
      [now apply (invariant_same_rows d) | now apply (has_admin_same_rows name d)].
  - intros [= <-]. split;
      [now apply (invariant_same_rows d) | now apply (has_admin_same_rows name d)].
  - contradiction.
Qed.

Lemma destroy_preserves name d d' :
  admin_invariant d -> apply_modifier name Destroy d = Accepted d' -> admin_invariant d'.
Proof.
  intros Hinv. simpl. destruct (is_enabled name d); [discriminate |]. intros [= <-].
  apply (invariant_frame_empty name d); [assumption | |].
  - split; intros ui H Hne.
    + unfold delete_identity in H; simpl in H. now apply filter_In in H.
    + unfold delete_identity; simpl. apply filter_In. split; [assumption |].
      now apply negb_true_iff, String.eqb_neq.
  - intros (ui & Hui & Hn). unfold delete_identity in Hui; simpl in Hui.
    apply filter_In in Hui as [_ Hui].
    apply negb_true_iff, String.eqb_neq in Hui. contradiction.
Qed.

Lemma run_modifiers_app name ms1 ms2 d :
  run_modifiers name (ms1 ++ ms2) d
  = match run_modifiers name ms1 d with
    | Accepted d' => run_modifiers name ms2 d'
    | Rejected why => Rejected why
    end.
Proof.
  revert d. induction ms1 as [|m ms1 IH]; intros d; simpl; [reflexivity |].
  destruct (apply_modifier name m d); [apply IH | reflexivity].
Qed.

Lemma run_modifiers_preserves name ms :
  Forall (fun m => m <> Destroy) ms ->
  forall d d',
    admin_invariant d -> has_admin name d ->
    run_modifiers name ms d = Accepted d' ->
    admin_invariant d' /\ has_admin name d'.
Proof.
  induction 1 as [|m ms Hm _ IH]; intros d d' Hinv Hadm; simpl.
  - intros [= <-]. auto.
  - destruct (apply_modifier name m d) as [d1|] eqn:E; [| discriminate].
    destruct (modifier_preserves _ _ _ _ Hm Hinv Hadm E) as [Hinv1 Hadm1].
    now apply IH.
Qed.

Lemma of_option_no_destroy {A} (f : A -> Modifier) (o : option A) :
  (forall a, f a <> Destroy) -> Forall (fun m => m <> Destroy) (of_option f o).
Proof. intros Hf. destruct o; simpl; constructor; auto. Qed.

Lemma of_flag_no_destroy m b :
  m <> Destroy -> Forall (fun m' => m' <> Destroy) (of_flag m b).
Proof. intros Hm. destruct b; simpl; constructor; auto. Qed.

(** Destroy comes last in the order of the modifiers. *)
Lemma modifiers_before_destroy i :
  Forall (fun m => m <> Destroy) (role_modifiers i ++ setting_modifiers i).
Proof.
  unfold role_modifiers, setting_modifiers.
  repeat (apply Forall_app; split);
    try (apply of_option_no_destroy; intros a; discriminate);
    apply of_flag_no_destroy; discriminate.
Qed.

Lemma run_intent_preserves i d d' :
  admin_invariant d -> has_admin (id i) d ->
  run_modifiers (id i) (modifiers i) d = Accepted d' ->
  admin_invariant d'.
Proof.
  intros Hinv Hadm. unfold modifiers. rewrite run_modifiers_app.
  destruct (run_modifiers (id i) (role_modifiers i ++ setting_modifiers i) d)
    as [d1|] eqn:E; [| discriminate].
  destruct (run_modifiers_preserves _ _ (modifiers_before_destroy i) _ _ Hinv Hadm E)
    as [Hinv1 _].
  destruct (destroy i); simpl.
  - destruct (is_enabled (id i) d1) eqn:En; [discriminate |]. intros [= <-].
    apply (destroy_preserves (id i) d1); [assumption |]. simpl. now rewrite En.
  - now intros [= <-].
Qed.

Lemma create_preserves name caller d d' :
  admin_invariant d -> create name caller d = Accepted d' -> admin_invariant d'.
Proof.
  intros Hinv. unfold create.
  destruct (existsb (fun i => String.eqb (i_name i) name) (identity d)); [discriminate |].
  intros [= <-]. apply (invariant_frame_admin name d); [assumption | |].
  - split; intros ui H Hne; simpl in *.
    + apply in_app_iff in H as [H | [<- | []]]; [assumption | now contradiction Hne].
    + apply in_app_iff. now left.
  - exists (mkUserIdentityRow name caller "ADMIN"). simpl.
    split; [apply in_app_iff; right; now left | split; reflexivity].
Qed.

(** Every command the engine accepts keeps the invariant, provided an ADMIN
    status is backed by an ADMIN row. *)
Lemma apply_preserves status i caller d d' :
  admin_invariant d ->
  (forall r, status = EXISTING r -> IExistingIdentityResult.status r = ADMIN ->
             has_admin (id i) d) ->
  apply status i caller d = Accepted d' ->
  admin_invariant d'.
Proof.
  intros Hinv Hst. destruct status as [r | |]; simpl.
  - destruct (IExistingIdentityResult.status r) eqn:Er.
    + apply run_intent_preserves; [assumption | now apply (Hst r)].
    + destruct (modifiers i); [now intros [= <-] | discriminate].
  - now apply create_preserves.
  - discriminate.
Qed.

Lemma commit_preserves status i caller d :
  admin_invariant d ->
  (forall r, status = EXISTING r -> IExistingIdentityResult.status r = ADMIN ->
             has_admin (id i) d) ->
  admin_invariant (commit (apply status i caller d) d).
Proof.
  intros Hinv Hst. destruct (apply status i caller d) as [d'|] eqn:E; simpl.
  - now apply (apply_preserves status i caller d).
  - assumption.
Qed.

End EngineFacts.

(** ** The registry *)

Section RegistryFacts.

Variable driver_bind : JSValue -> Completion SqlValue.

Lemma run_command_run i caller w :
  run_command driver_bind i caller w
  = (Normal (Engine.apply
               (status_of (head (select_identity (db w) (SqlText (Engine.id i)))) caller)
               i caller (db w)),
     mkWorld
       (Engine.commit
          (Engine.apply
             (status_of (head (select_identity (db w) (SqlText (Engine.id i)))) caller)
             i caller (db w))
          (db w))
       (reads w ++ [DbRead (SqlText (Engine.id i))])).
Proof.
  unfold run_command, bindM.
  now rewrite ResolverFacts.checkIdentityStatus_run.
Qed.

Lemma resolved_status name caller w st :
  fst (checkIdentityStatus driver_bind (JString name) caller w) = Normal st ->
  status_of (head (select_identity (db w) (SqlText name))) caller = st.
Proof. rewrite ResolverFacts.checkIdentityStatus_run. simpl. congruence. Qed.

Lemma run_command_keeps_invariant i caller w :
  admin_invariant (db w) ->
  admin_invariant (db (snd (run_command driver_bind i caller w))).
Proof.
  intros Hinv. rewrite run_command_run. simpl.
  apply EngineFacts.commit_preserves; [assumption |].
  intros r Hr Hadmin.
  apply (ResolverFacts.admin_status_has_admin driver_bind (Engine.id i) caller w r);
    [| assumption].
  rewrite ResolverFacts.checkIdentityStatus_run. simpl. now rewrite Hr.
Qed.

Lemma reachable_invariant w : reachable driver_bind w -> admin_invariant (db w).
Proof.
  induction 1 as [| w i caller _ IH].
  - intros n (ui & [] & _).
  - now apply run_command_keeps_invariant.
Qed.

(** A single role modifier sent by an admin is rejected when it is aimed at
    the last admin. *)
Lemma last_admin_rejected i name caller w r m :
  Engine.id i = name -> Engine.modifiers i = [m] ->
  Engine.apply_modifier name m (db w) = Engine.Rejected Engine.InvariantViolation ->
  fst (checkIdentityStatus driver_bind (JString name) caller w) = Normal (EXISTING r) ->
  IExistingIdentityResult.status r = ADMIN ->
  fst (run_command driver_bind i caller w) = Normal (Engine.Rejected Engine.InvariantViolation)
  /\ db (snd (run_command driver_bind i caller w)) = db w.
Proof.
  intros Hid Hms Hrej Hst Hadmin. rewrite run_command_run, Hid. simpl.
  rewrite (resolved_status _ _ _ _ Hst). simpl.
  rewrite Hadmin, Hms, Hid. simpl. rewrite Hrej. simpl. auto.
Qed.

End RegistryFacts.

(** C3. In every world reached from the empty registry, every identity
    that has a membership row has a membership row of type ADMIN, and every
    further command keeps it so; a removal, or a demotion to MEMBER, sent by
    an admin, that would leave the identity without an ADMIN row is rejected
    as an invariant violation and the database stays as it was. *)
Theorem reachable_registry_keeps_an_admin :
  forall (driver_bind : JSValue -> Completion SqlValue) (w : World),
    reachable driver_bind w ->
    admin_invariant (db w)
    /\ (forall i caller,
           admin_invariant (db (snd (run_command driver_bind i caller w))))
    /\ (forall name caller x r,
           fst (checkIdentityStatus driver_bind (JString name) caller w)
             = Normal (EXISTING r) ->
           IExistingIdentityResult.status r = ADMIN ->
           ~ has_admin name (Engine.delete_membership name x (db w)) ->
           fst (run_command driver_bind (remove_command name x) caller w)
             = Normal (Engine.Rejected Engine.InvariantViolation)
           /\ db (snd (run_command driver_bind (remove_command name x) caller w)) = db w)
    /\ (forall name caller x r,
           fst (checkIdentityStatus driver_bind (JString name) caller w)
             = Normal (EXISTING r) ->
           IExistingIdentityResult.status r = ADMIN ->
           ~ has_admin name (Engine.set_membership name x "MEMBER" (db w)) ->
           fst (run_command driver_bind (member_command name x) caller w)
             = Normal (Engine.Rejected Engine.InvariantViolation)
           /\ db (snd (run_command driver_bind (member_command name x) caller w)) = db w).
Proof.
  intros driver_bind w Hreach.
  pose proof (reachable_invariant driver_bind w Hreach) as Hinv.
  split; [exact Hinv |]. split; [| split].
  - intros i caller. now apply run_command_keeps_invariant.
  - intros name caller x r Hst Hadmin Hnone.
    pose proof (ResolverFacts.admin_status_has_admin _ _ _ _ _ Hst Hadmin) as Hadm.
    apply (last_admin_rejected driver_bind _ name caller w r (Engine.RemoveMember x));
      try reflexivity; try assumption.
    simpl. destruct (Engine.last_admin name x (db w)) eqn:E; [reflexivity |].
    contradiction (Hnone (EngineFacts.has_admin_after_delete _ _ _ Hadm E)).
  - intros name caller x r Hst Hadmin Hnone.
    pose proof (ResolverFacts.admin_status_has_admin _ _ _ _ _ Hst Hadmin) as Hadm.
    apply (last_admin_rejected driver_bind _ name caller w r (Engine.GrantMember x));
      try reflexivity; try assumption.
    simpl. destruct (Engine.last_admin name x (db w)) eqn:E; [reflexivity |].
    contradiction (Hnone (EngineFacts.has_admin_after_set_member _ _ _ Hadm E)).
Qed.

Lemma reachable_registry_keeps_an_admin_witness :
  reachable Sample.null_driver
    (snd (run_command Sample.null_driver (claim_command "alice") "S1" empty_world))
  /\ admin_invariant
       (db (snd (run_command Sample.null_driver (claim_command "alice") "S1" empty_world))).
Proof.
  assert (H : reachable Sample.null_driver
                (snd (run_command Sample.null_driver (claim_command "alice") "S1"
                        empty_world)))
    by (apply reachable_step, reachable_empty).
  split; [exact H |].
  exact (proj1 (reachable_registry_keeps_an_admin Sample.null_driver _ H)).
Defined.

(** The scenario of the specification: [alice] is claimed by [S1]; the
    removal of [S1], its only admin, is rejected; once [S2] is an admin,
    the same removal is accepted and [S2] remains. *)
Example remove_last_admin_scenario :
  let w1 := snd (run_command Sample.null_driver (claim_command "alice") "S1" empty_world) in
  let w2 := snd (run_command Sample.null_driver (admin_command "alice" "S2") "S1" w1) in
  let w3 := snd (run_command Sample.null_driver (remove_command "alice" "S1") "S1" w2) in
  fst (run_command Sample.null_driver (claim_command "alice") "S1" empty_world)
    = Normal (Engine.Accepted (db w1))
  /\ user_identity (db w1) = [mkUserIdentityRow "alice" "S1" "ADMIN"]
  /\ run_command Sample.null_driver (remove_command "alice" "S1") "S1" w1
     = (Normal (Engine.Rejected Engine.InvariantViolation),
        mkWorld (db w1) (reads w1 ++ [DbRead (SqlText "alice")]))
  /\ fst (run_command Sample.null_driver (remove_command "alice" "S1") "S1" w2)
     = Normal (Engine.Accepted (db w3))
  /\ user_identity (db w3) = [mkUserIdentityRow "alice" "S2" "ADMIN"].
Proof. vm_compute. repeat split; reflexivity. Qed.

(** The life of an identity: a free name resolves to AVAILABLE; once [S1]
    has claimed it, [S1] resolves to EXISTING with status ADMIN and [S2] to
    TAKEN; destroy is rejected while the identity is enabled and accepted
    once it is disabled, after which the name is AVAILABLE again. *)
Example identity_lifecycle_scenario :
  let resolve w name sender :=
    fst (checkIdentityStatus Sample.null_driver (JString name) sender w) in
  let destroy_command := Engine.mkIntent "alice" None None None None false false true in
  let disable_command := Engine.mkIntent "alice" None None None None false true false in
  let w1 := snd (run_command Sample.null_driver (claim_command "alice") "S1" empty_world) in
  let w2 := snd (run_command Sample.null_driver disable_command "S1" w1) in
  let w3 := snd (run_command Sample.null_driver destroy_command "S1" w2) in
  resolve empty_world "alice" "S1" = Normal AVAILABLE
  /\ resolve w1 "alice" "S1"
     = Normal (EXISTING (IExistingIdentityResult.mk ADMIN true "alice" "ADMIN"
                           (Some "alice") "S1"))
  /\ resolve w1 "alice" "S2" = Normal TAKEN
  /\ fst (run_command Sample.null_driver destroy_command "S1" w1)
     = Normal (Engine.Rejected Engine.InvariantViolation)
  /\ fst (run_command Sample.null_driver destroy_command "S1" w2)
     = Normal (Engine.Accepted (db w3))
  /\ resolve w3 "alice" "S1" = Normal AVAILABLE.
Proof. vm_compute. repeat split; reflexivity. Qed.

(** * Further properties of the resolver *)

Module JoinFacts.

(** The join is computed membership row by membership row. *)
Lemma select_identity_app ids us l1 l2 p :
  select_identity (mkDb ids us (l1 ++ l2)) p
  = (select_identity (mkDb ids us l1) p ++ select_identity (mkDb ids us l2) p)%list.
Proof. unfold select_identity; simpl. apply flat_map_app. Qed.

Lemma select_identity_cons ids us ui l p :
  select_identity (mkDb ids us (ui :: l)) p
  = (select_identity (mkDb ids us [ui]) p ++ select_identity (mkDb ids us l) p)%list.
Proof. apply (select_identity_app ids us [ui] l p). Qed.

(** Membership rows that do not match the parameter contribute no row. *)
Lemma select_identity_unmatched ids us l p :
  (forall ui, In ui l -> sql_eq (ui_identity_name ui) p = false) ->
  select_identity (mkDb ids us l) p = [].
Proof.
  intros H. destruct (select_identity (mkDb ids us l) p) as [|row rows] eqn:E;
    [reflexivity | exfalso].
  assert (Hin : In row (select_identity (mkDb ids us l) p)) by (rewrite E; now left).
  apply ResolverFacts.in_select_identity in Hin
    as (ui & i & u & Hui & _ & _ & _ & _ & Hm & _).
  simpl in Hui. rewrite (H ui Hui) in Hm. discriminate.
Qed.

(** A NULL parameter matches no membership row. *)
Lemma select_identity_null d : select_identity d SqlNull = [].
Proof.
  destruct d as [ids us l]. apply select_identity_unmatched. reflexivity.
Qed.

(** Only the membership rows on the name are looked at. *)
Lemma select_identity_filter ids us l name :
  select_identity (mkDb ids us l) (SqlText name)
  = select_identity
      (mkDb ids us (List.filter (fun ui => String.eqb (ui_identity_name ui) name) l))
      (SqlText name).
Proof.
  induction l as [|ui l IH]; [reflexivity |].
  rewrite select_identity_cons, IH. simpl List.filter.
  destruct (String.eqb (ui_identity_name ui) name) eqn:E.
  - symmetry. apply select_identity_cons.
  - rewrite (select_identity_unmatched ids us [ui]); [reflexivity |].
    intros ui' [<- | []]. exact E.
Qed.

End JoinFacts.

(** X1. The resolver answers TAKEN only when some other sender holds a
    membership row on the identity: a sender who is the only holder of
    memberships on a name is never told that the name is taken. *)
Theorem taken_means_another_member :
  forall (driver_bind : JSValue -> Completion SqlValue) (name sender : string) (w : World),
    fst (checkIdentityStatus driver_bind (JString name) sender w) = Normal TAKEN ->
    exists ui, In ui (user_identity (db w))
               /\ ui_identity_name ui = name /\ ui_user_pubkey ui <> sender.
Proof.
  intros driver_bind name sender w.
  rewrite ResolverFacts.checkIdentityStatus_run. simpl. unfold status_of.
  destruct (head (select_identity (db w) (SqlText name))) as [row|] eqn:Hrow;
    [| discriminate].
  destruct (String.eqb_spec (Row.sender row) sender) as [|Hne]; [discriminate |].
  intros _.
  apply ResolverFacts.head_in, ResolverFacts.in_select_identity in Hrow
    as (ui & i & u & Hui & _ & _ & _ & E2 & E3 & ->).
  apply ResolverFacts.sql_eq_text in E3. simpl in Hne.
  exists ui. repeat split; [assumption | assumption | congruence].
Qed.

Lemma taken_means_another_member_witness :
  fst (checkIdentityStatus Sample.null_driver (JString "alice") "S2"
         (mkWorld Sample.two_members []))
  = Normal TAKEN
  /\ exists ui, In ui (user_identity Sample.two_members)
                /\ ui_identity_name ui = "alice" /\ ui_user_pubkey ui <> "S2".
Proof.
  split; [reflexivity |].
  apply (taken_means_another_member Sample.null_driver "alice" "S2"
           (mkWorld Sample.two_members [])).
  reflexivity.
Defined.

(** X2. An EXISTING result names the identity that was asked for and the
    caller as its sender; its [enabled] flag is the flag of an identity row
    with that name, and its [primaryIdentityName] is the one of a user row
    of the caller. *)
Theorem existing_result_fields :
  forall (driver_bind : JSValue -> Completion SqlValue) (name sender : string) (w : World)
         (r : IExistingIdentityResult.t),
    fst (checkIdentityStatus driver_bind (JString name) sender w) = Normal (EXISTING r) ->
    IExistingIdentityResult.identityName r = name
    /\ IExistingIdentityResult.sender r = sender
    /\ (exists i, In i (identity (db w)) /\ i_name i = name
                  /\ i_enabled i = IExistingIdentityResult.enabled r)
    /\ (exists u, In u (user (db w)) /\ u_sender u = sender
                  /\ u_primary_identity_name u
                     = IExistingIdentityResult.primaryIdentityName r).
Proof.
  intros driver_bind name sender w r.
  rewrite ResolverFacts.checkIdentityStatus_run. simpl. unfold status_of.
  destruct (head (select_identity (db w) (SqlText name))) as [row|] eqn:Hrow;
    [| discriminate].
  destruct (String.eqb_spec (Row.sender row) sender) as [Hs|]; [| discriminate].
  intros [= <-]. unfold existing_of; simpl.
  apply ResolverFacts.head_in, ResolverFacts.in_select_identity in Hrow
    as (ui & i & u & _ & Hi & Hu & E1 & _ & E3 & ->).
  apply ResolverFacts.sql_eq_text in E3. simpl in *.
  split; [congruence |]. split; [reflexivity |]. split.
  - exists i. repeat split; [assumption | congruence].
  - exists u. repeat split; assumption.
Qed.

Lemma existing_result_fields_witness :
  fst (checkIdentityStatus Sample.null_driver (JString "alice") "S1"
         (mkWorld Sample.two_members []))
  = Normal (EXISTING (IExistingIdentityResult.mk ADMIN true "alice" "ADMIN" (Some "alice") "S1"))
  /\ IExistingIdentityResult.identityName
       (IExistingIdentityResult.mk ADMIN true "alice" "ADMIN" (Some "alice") "S1") = "alice".
Proof.
  split; [reflexivity |].
  apply (existing_result_fields Sample.null_driver "alice" "S1"
           (mkWorld Sample.two_members [])
           (IExistingIdentityResult.mk ADMIN true "alice" "ADMIN" (Some "alice") "S1")).
  reflexivity.
Defined.

Module FrameFacts.

Lemma flat_map_all_nil {A B} (f : A -> list B) (l : list A) :
  (forall a, In a l -> f a = []) -> flat_map f l = [].
Proof.
  induction l as [|a l IH]; simpl; intros H; [reflexivity |].
  rewrite (H a) by now left. apply IH. intros b Hb. apply H. now right.
Qed.

(** Only the identity rows with the name are joined. *)
Lemma select_identity_filter_identity ids us l name :
  select_identity (mkDb ids us l) (SqlText name)
  = select_identity
      (mkDb (List.filter (fun i => String.eqb (i_name i) name) ids) us l)
      (SqlText name).
Proof.
  unfold select_identity; simpl. apply flat_map_ext. intros ui.
  induction ids as [|i ids IH]; [reflexivity |].
  simpl. destruct (String.eqb_spec (i_name i) name) as [E|E].
  - simpl. now rewrite IH.
  - rewrite IH. rewrite flat_map_all_nil; [reflexivity |].
    intros u _.
    destruct (String.eqb_spec (ui_identity_name ui) (i_name i)) as [E1|]; [| reflexivity].
    simpl sql_eq.
    destruct (String.eqb_spec (ui_identity_name ui) name) as [E2|]; [congruence |].
    now rewrite andb_false_r.
Qed.

End FrameFacts.

(** X5. The resolver reads nothing but the rows of the name it is asked
    about: two stores with the same users, the same identity rows with that
    name and the same membership rows on that name get the same answer, for
    every sender. *)
Theorem other_identities_are_not_read :
  forall (driver_bind : JSValue -> Completion SqlValue) (name sender : string)
         (w w' : World),
    user (db w) = user (db w') ->
    List.filter (fun i => String.eqb (i_name i) name) (identity (db w))
    = List.filter (fun i => String.eqb (i_name i) name) (identity (db w')) ->
    List.filter (fun ui => String.eqb (ui_identity_name ui) name) (user_identity (db w))
    = List.filter (fun ui => String.eqb (ui_identity_name ui) name) (user_identity (db w')) ->
    fst (checkIdentityStatus driver_bind (JString name) sender w)
    = fst (checkIdentityStatus driver_bind (JString name) sender w').
Proof.
  intros driver_bind name sender [[ids us uis] log] [[ids' us' uis'] log'].
  simpl. intros Hu Hi Hm. subst us'.
  rewrite !ResolverFacts.checkIdentityStatus_run. simpl.
  rewrite (JoinFacts.select_identity_filter ids us uis).
  rewrite (JoinFacts.select_identity_filter ids' us uis').
  rewrite FrameFacts.select_identity_filter_identity.
  rewrite (FrameFacts.select_identity_filter_identity ids').
  now rewrite Hi, Hm.
Qed.

Lemma other_identities_are_not_read_witness :
  fst (checkIdentityStatus Sample.null_driver (JString "alice") "S2"
         (mkWorld Sample.two_members []))
  = fst (checkIdentityStatus Sample.null_driver (JString "alice") "S2"
           (mkWorld SampleStores.with_bob [DbRead (SqlText "bob")])).
Proof.
  apply (other_identities_are_not_read Sample.null_driver "alice" "S2"
           (mkWorld Sample.two_members [])
           (mkWorld SampleStores.with_bob [DbRead (SqlText "bob")]));
    reflexivity.
Defined.

(** * Further properties of the dispatcher *)

Module PrefixFacts.
Import JsString.

Lemma lower_char_is_i c :
  Ascii.eqb "i" (lower_char c) = Ascii.eqb c "i" || Ascii.eqb c "I".
Proof. destruct c as [[] [] [] [] [] [] [] []]; reflexivity. Qed.

Lemma lower_char_is_d c :
  Ascii.eqb "d" (lower_char c) = Ascii.eqb c "d" || Ascii.eqb c "D".
Proof. destruct c as [[] [] [] [] [] [] [] []]; reflexivity. Qed.

Lemma lower_char_is_space c :
  Ascii.eqb " " (lower_char c) = Ascii.eqb c " ".
Proof. destruct c as [[] [] [] [] [] [] [] []]; reflexivity. Qed.

Lemma startsWith_empty s : startsWith s "" = true.
Proof. destruct s; reflexivity. Qed.

(** The commands that pass the prefix check of [handle]. *)
Lemma id_prefix_shape command :
  startsWith (toLowerCase command) "id " = true <->
  exists c1 c2 rest,
    command = String c1 (String c2 (String " " rest))
    /\ (c1 = "i" \/ c1 = "I")%char /\ (c2 = "d" \/ c2 = "D")%char.
Proof.
  split.
  - destruct command as [|c1 [|c2 [|c3 rest]]]; cbn [startsWith toLowerCase];
      try discriminate;
      try (intros H; apply andb_prop in H as [_ H]; try apply andb_prop in H as [_ H];
           discriminate).
    rewrite lower_char_is_i, lower_char_is_d, lower_char_is_space,
      startsWith_empty, andb_true_r.
    intros H. apply andb_prop in H as [H1 H]. apply andb_prop in H as [H2 H3].
    apply Ascii.eqb_eq in H3. subst c3. exists c1, c2, rest.
    split; [reflexivity |].
    split; [apply orb_prop in H1 as [H|H] | apply orb_prop in H2 as [H|H]];
      apply Ascii.eqb_eq in H; auto.
  - intros (c1 & c2 & rest & -> & H1 & H2). cbn [startsWith toLowerCase].
    rewrite lower_char_is_i, lower_char_is_d, startsWith_empty.
    apply andb_true_iff. split.
    + destruct H1 as [-> | ->]; reflexivity.
    + apply andb_true_iff. split; [| reflexivity].
      destruct H2 as [-> | ->]; reflexivity.
Qed.

End PrefixFacts.

Section DispatcherMore.

Variable driver_bind : JSValue -> Completion SqlValue.
Variable parser : string -> Completion Args.
Variable createIdentity : JSValue -> string -> string -> IMessage.t -> Handler.
Variable alreadyTaken : JSValue -> string -> string -> IMessage.t -> Handler.
Variable modifyIdentity :
  IExistingIdentityResult.t -> Args -> string -> IMessage.t -> Handler.
Variable IMessageSource : Type.

Local Abbreviation run_handle :=
  (handle driver_bind parser createIdentity alreadyTaken modifyIdentity IMessageSource).

(** The handler [handle] runs for a status. *)
Local Abbreviation chosen args command message :=
  (fun identityStatus =>
     match identityStatus with
     | AVAILABLE =>
         createIdentity (get_prop args "id") (IMessage.sender message) command message
     | TAKEN =>
         alreadyTaken (get_prop args "id") (IMessage.sender message) command message
     | EXISTING r => modifyIdentity r args command message
     end).

(** The run of [handle] on a command whose name passed validation and whose
    parameter was bound. *)
Lemma handle_bound command message src w args p :
  JsString.startsWith (JsString.toLowerCase command) "id " = true ->
  parser command = Normal args ->
  isValidIdentity (get_prop args "id") = true ->
  bind_param driver_bind (get_prop args "id") = Normal p ->
  run_handle command message src w
  = call (chosen args command message
            (status_of (head (select_identity (db w) p)) (IMessage.sender message)))
         (mkWorld (db w) (reads w ++ [DbRead p])).
Proof.
  intros H Hp Hv Hb.
  rewrite (handle_valid_name _ _ _ _ _ _ _ _ _ _ _ H Hp Hv). unfold bindM.
  rewrite (ResolverFacts.checkIdentityStatus_run_bound _ _ _ _ _ Hb).
  now destruct (status_of (head (select_identity (db w) p)) (IMessage.sender message)).
Qed.

(** The run of [handle] when the driver refuses the parameter. *)
Lemma handle_unbound command message src w args e :
  JsString.startsWith (JsString.toLowerCase command) "id " = true ->
  parser command = Normal args ->
  isValidIdentity (get_prop args "id") = true ->
  bind_param driver_bind (get_prop args "id") = Thrown e ->
  run_handle command message src w = (Thrown e, w).
Proof.
  intros H Hp Hv Hb.
  rewrite (handle_valid_name _ _ _ _ _ _ _ _ _ _ _ H Hp Hv). unfold bindM.
  now rewrite (ResolverFacts.checkIdentityStatus_run_thrown _ _ _ _ _ Hb).
Qed.

(** The four ways a run of [handle] can go. *)
Lemma handle_cases command message src w :
  run_handle command message src w = (Normal None, w)
  \/ (exists e, parser command = Thrown e
                /\ run_handle command message src w = (Thrown e, w))
  \/ (exists args e,
         parser command = Normal args
         /\ bind_param driver_bind (get_prop args "id") = Thrown e
         /\ run_handle command message src w = (Thrown e, w))
  \/ (exists args p,
         parser command = Normal args
         /\ bind_param driver_bind (get_prop args "id") = Normal p
         /\ run_handle command message src w
            = call (chosen args command message
                      (status_of (head (select_identity (db w) p))
                                 (IMessage.sender message)))
                   (mkWorld (db w) (reads w ++ [DbRead p]))).
Proof.
  destruct (JsString.startsWith (JsString.toLowerCase command) "id ") eqn:H;
    [| left; now apply handle_without_prefix].
  destruct (parser command) as [args|e] eqn:Hp;
    [| right; left; exists e; split; [reflexivity | now apply handle_parser_throws]].
  destruct (isValidIdentity (get_prop args "id")) eqn:Hv;
    [| left; now apply (handle_invalid_name _ _ _ _ _ _ _ _ _ _ args)].
  destruct (bind_param driver_bind (get_prop args "id")) as [p|e] eqn:Hb.
  - right; right; right. exists args, p.
    repeat split; [assumption |]. now apply handle_bound.
  - right; right; left. exists args, e.
    repeat split; [assumption |]. now apply (handle_unbound _ _ _ _ args).
Qed.

(** X6. [handle] goes past its first test exactly for the commands whose
    first three characters are [i] or [I], [d] or [D], and a space; for
    every other command it returns nothing and leaves the world as it was,
    without running the parser (even one that would throw). *)
Theorem handle_prefix_is_case_insensitive :
  forall (command : string) (message : IMessage.t) (src : IMessageSource) (w : World),
    (JsString.startsWith (JsString.toLowerCase command) "id " = true <->
     exists c1 c2 rest,
       command = String c1 (String c2 (String " " rest))
       /\ (c1 = "i" \/ c1 = "I")%char /\ (c2 = "d" \/ c2 = "D")%char)
    /\ ((~ exists c1 c2 rest,
            command = String c1 (String c2 (String " " rest))
            /\ (c1 = "i" \/ c1 = "I")%char /\ (c2 = "d" \/ c2 = "D")%char) ->
        run_handle command message src w = (Normal None, w)).
Proof.
  intros command message src w.
  split; [apply PrefixFacts.id_prefix_shape |].
  intros Hno. apply handle_without_prefix.
  apply not_true_is_false. intros H. apply Hno. now apply PrefixFacts.id_prefix_shape.
Qed.

(** X9. [handle] changes the database only through the one handler it
    calls, and that handler is run on the database as it was before the
    command: the database after [handle] is the database before, or the one
    returned by create-identity, already-taken or modify-identity on it. *)
Theorem handle_writes_through_one_handler :
  forall (command : string) (message : IMessage.t) (src : IMessageSource) (w : World),
    db (snd (run_handle command message src w)) = db w
    \/ (exists args,
           parser command = Normal args
           /\ db (snd (run_handle command message src w))
              = snd (createIdentity (get_prop args "id") (IMessage.sender message)
                       command message (db w)))
    \/ (exists args,
           parser command = Normal args
           /\ db (snd (run_handle command message src w))
              = snd (alreadyTaken (get_prop args "id") (IMessage.sender message)
                       command message (db w)))
    \/ (exists r args,
           parser command = Normal args
           /\ IExistingIdentityResult.sender r = IMessage.sender message
           /\ db (snd (run_handle command message src w))
              = snd (modifyIdentity r args command message (db w))).
Proof.
  intros command message src w.
  destruct (handle_cases command message src w)
    as [H | [(e1 & Hp & H) | [(args & e1 & Hp & Hb & H) | (args & p & Hp & Hb & H)]]];
    rewrite H; try (left; reflexivity).
  right. unfold status_of.
  destruct (head (select_identity (db w) p)) as [row|].
  - destruct (String.eqb (Row.sender row) (IMessage.sender message)).
    + right; right. exists (existing_of row (IMessage.sender message)), args.
      split; [assumption |]. split; [reflexivity |].
      unfold call; simpl.
      now destruct (modifyIdentity (existing_of row (IMessage.sender message)) args
                      command message (db w)).
    + right; left. exists args. split; [assumption |]. unfold call; simpl.
      now destruct (alreadyTaken (get_prop args "id") (IMessage.sender message)
                      command message (db w)).
  - left. exists args. split; [assumption |]. unfold call; simpl.
    now destruct (createIdentity (get_prop args "id") (IMessage.sender message)
                    command message (db w)).
Qed.


End DispatcherMore.

Example handle_prefix_samples :
  map (fun command => JsString.startsWith (JsString.toLowerCase command) "id ")
      ["id alice"; "ID alice"; "Id alice"; "iD alice"; "id"; "idalice"; " id alice"; "hid a"]
  = [true; true; true; true; false; false; false; false].
Proof. reflexivity. Qed.


(** * Further properties of the validator and of the fallback reply *)

Module NameFacts.
Import JsString.

Lemma name_char_not_upper c : name_char c = true -> is_upper c = false.
Proof.
  intros H. destruct (is_upper c) eqn:E; [| reflexivity].
  apply ValidatorFacts.upper_not_name_char in E. rewrite H in E. discriminate.
Qed.

Lemma lower_char_name_char c : name_char c = true -> lower_char c = c.
Proof. intros H. unfold lower_char. now rewrite (name_char_not_upper c H). Qed.

Lemma toLowerCase_name_chars s : all_chars name_char s = true -> toLowerCase s = s.
Proof.
  induction s as [|c s IH]; simpl; [reflexivity |].
  intros H. apply andb_prop in H as [Hc Hs].
  now rewrite (lower_char_name_char c Hc), (IH Hs).
Qed.

Lemma all_chars_none p q s :
  (forall c, p c = true -> q c = false) -> all_chars p s = true -> some_char q s = false.
Proof.
  intros Hpq. induction s as [|c s IH]; simpl; [reflexivity |].
  intros H. apply andb_prop in H as [Hc Hs]. now rewrite (Hpq c Hc), (IH Hs).
Qed.

Lemma name_char_not_separator c :
  name_char c = true -> (Ascii.eqb c " " || Ascii.eqb c ",") = false.
Proof.
  intros H. apply orb_false_iff.
  split; apply not_true_is_false; intros E; apply Ascii.eqb_eq in E; subst c; discriminate.
Qed.

Lemma some_char_append p s t : some_char p (s ++ t) = some_char p s || some_char p t.
Proof.
  induction s as [|c s IH]; [reflexivity |].
  rewrite RegexFacts.append_cons. simpl. now rewrite IH, orb_assoc.
Qed.

(** The coercion of an array of two or more words holds a comma. *)
Lemma join_has_comma a b l :
  some_char (fun c => negb (name_char c)) (join (a :: b :: l)) = true.
Proof.
  change (join (a :: b :: l)) with (a ++ "," ++ join (b :: l)).
  rewrite !some_char_append. simpl. apply orb_true_r.
Qed.

Lemma length_append s t : String.length (s ++ t) = String.length s + String.length t.
Proof.
  induction s as [|c s IH]; [reflexivity |].
  rewrite RegexFacts.append_cons. simpl. now rewrite IH.
Qed.

Lemma append_cancel_r s1 : forall s2 t, s1 ++ t = s2 ++ t -> s1 = s2.
Proof.
  induction s1 as [|c s1 IH]; intros [|d s2] t H.
  - reflexivity.
  - apply (f_equal String.length) in H.
    rewrite RegexFacts.append_empty_l, RegexFacts.append_cons in H. simpl in H.
    rewrite length_append in H. lia.
  - apply (f_equal String.length) in H.
    rewrite RegexFacts.append_empty_l, RegexFacts.append_cons in H. simpl in H.
    rewrite length_append in H. lia.
  - rewrite !RegexFacts.append_cons in H. inversion H; subst.
    f_equal. now apply (IH s2 t).
Qed.

Lemma append_cancel_l s : forall t1 t2, s ++ t1 = s ++ t2 -> t1 = t2.
Proof.
  induction s as [|c s IH]; intros t1 t2 H; [exact H |].
  rewrite !RegexFacts.append_cons in H. inversion H. now apply IH.
Qed.

End NameFacts.

(** X12. A name accepted by [isValidIdentity] is its own lower-case form,
    has at least two characters and holds neither a space nor a comma: the
    lower-casing done for the prefix check cannot change an accepted name,
    and an accepted name is a single word of the command. *)
Theorem valid_names_are_lowercase_words :
  forall s : string,
    isValidIdentity (JString s) = true ->
    JsString.toLowerCase s = s
    /\ 2 <= String.length s
    /\ JsString.some_char (fun c => Ascii.eqb c " " || Ascii.eqb c ",") s = false.
Proof.
  intros s H. apply ValidatorFacts.isValidIdentity_shape in H.
  pose proof (ValidatorFacts.shape_all_name_chars s H) as Hall.
  split; [now apply NameFacts.toLowerCase_name_chars |]. split.
  - destruct H as (c & rest & -> & _ & Hlen & _). simpl. lia.
  - apply (NameFacts.all_chars_none name_char); [| assumption].
    exact NameFacts.name_char_not_separator.
Qed.

Lemma valid_names_are_lowercase_words_witness :
  isValidIdentity (JString "anon_gamers2") = true
  /\ JsString.toLowerCase "anon_gamers2" = "anon_gamers2".
Proof.
  split; [reflexivity |].
  apply (valid_names_are_lowercase_words "anon_gamers2"). reflexivity.
Defined.

(** X13. [isValidIdentity] judges any value by its string coercion: a value
    is accepted exactly when its coercion has the shape of a name. So
    [undefined] and both booleans are accepted, the empty array is rejected,
    and an array of two or more words is rejected because its coercion
    holds a comma. *)
Theorem isValidIdentity_judges_the_coercion :
  (forall v, isValidIdentity v = true <-> name_shape (ToString v))
  /\ isValidIdentity JUndefined = true
  /\ (forall b, isValidIdentity (JBool b) = true)
  /\ isValidIdentity (JArray []) = false
  /\ (forall a b l, isValidIdentity (JArray (a :: b :: l)) = false).
Proof.
  assert (Hco : forall v, isValidIdentity v = isValidIdentity (JString (ToString v)))
    by reflexivity.
  split; [| split; [reflexivity | split; [intros []; reflexivity | split; [reflexivity |]]]].
  - intros v. rewrite Hco. apply ValidatorFacts.isValidIdentity_shape.
  - intros a b l. rewrite Hco. apply ValidatorFacts.not_shape_invalid. intros Hs.
    apply ValidatorFacts.shape_all_name_chars in Hs.
    pose proof (NameFacts.join_has_comma a b l) as Hc.
    apply ValidatorFacts.some_char_not_all in Hc.
    change (ToString (JArray (a :: b :: l))) with (JsString.join (a :: b :: l)) in Hs.
    congruence.
Qed.

(** X14. [didNotUnderstand] never touches the store and never throws; its
    reply is addressed to the message it answers and quotes the command
    between fixed words, so the replies to two different commands differ. *)
Theorem didNotUnderstand_quotes_the_command :
  forall (command command' : string) (message message' : IMessage.t) (w w' : World),
    (exists r, didNotUnderstand command message w = (Normal r, w)
               /\ response_messageId r = IMessage.id message)
    /\ (fst (didNotUnderstand command message w)
        = fst (didNotUnderstand command' message' w') ->
        command = command' /\ IMessage.id message = IMessage.id message').
Proof.
  intros command command' message message' w w'. split.
  - eexists. split; reflexivity.
  - unfold didNotUnderstand, ret. simpl. intros [= Ht Hid].
    split; [| exact Hid].
    apply NameFacts.append_cancel_l in Ht.
    now apply NameFacts.append_cancel_r in Ht.
Qed.

(** * The sole holder of an identity *)

Module SoleHolderFacts.

(** When every membership row on a name is held by one sender with one
    type, and one of them has its identity row and its user row, the join
    has rows and each of them carries that sender and that type: whichever
    row [.get] returns, it is a row of the holder. *)
Lemma sole_holder_row d name holder ty m i u :
  (forall ui, In ui (user_identity d) -> ui_identity_name ui = name ->
              ui_user_pubkey ui = holder /\ ui_membership_type ui = ty) ->
  In m (user_identity d) -> ui_identity_name m = name ->
  In i (identity d) -> i_name i = name ->
  In u (user d) -> u_sender u = holder ->
  exists row,
    head (select_identity d (SqlText name)) = Some row
    /\ Row.sender row = holder
    /\ Row.membershipType row = ty
    /\ Row.identityName row = name.
Proof.
  intros Honly Hm Em Hi Ei Hu Eu.
  destruct (Honly m Hm Em) as [Emh _].
  destruct (select_identity d (SqlText name)) as [|row rows] eqn:E.
  - exfalso.
    assert (Hin : In (Row.mk (i_enabled i) (i_name i) (ui_membership_type m)
                        (u_primary_identity_name u) (u_sender u))
                     (select_identity d (SqlText name))).
    { apply ResolverFacts.in_select_identity. exists m, i, u.
      repeat split; try assumption; [congruence | congruence |].
      now apply ResolverFacts.sql_eq_text. }
    rewrite E in Hin. destruct Hin.
  - exists row. split; [reflexivity |].
    assert (Hin : In row (select_identity d (SqlText name))) by (rewrite E; now left).
    apply ResolverFacts.in_select_identity in Hin
      as (ui' & i' & u' & Hui' & _ & _ & E1 & E2 & E3 & ->).
    apply ResolverFacts.sql_eq_text in E3.
    destruct (Honly ui' Hui' E3) as [Eh Et]. simpl.
    repeat split; congruence.
Qed.

Lemma call_result (h : Handler) w :
  fst (call h w) = fst (h (db w))
  /\ db (snd (call h w)) = snd (h (db w))
  /\ reads (snd (call h w)) = reads w.
Proof. unfold call. destruct (h (db w)). simpl. auto. Qed.

End SoleHolderFacts.

(** X3. When every membership row on a name is held by one sender, with one
    membership type, and its identity row and user row exist, the resolver
    answers that sender EXISTING with that type (status ADMIN exactly when
    the type is ADMIN) and answers every other sender TAKEN. This holds
    whichever row of the join is returned first. *)
Theorem sole_holder_is_recognised :
  forall (driver_bind : JSValue -> Completion SqlValue) (name holder ty : string)
         (w : World) (m : UserIdentityRow) (i : IdentityRow) (u : UserRow),
    (forall ui, In ui (user_identity (db w)) -> ui_identity_name ui = name ->
                ui_user_pubkey ui = holder /\ ui_membership_type ui = ty) ->
    In m (user_identity (db w)) -> ui_identity_name m = name ->
    In i (identity (db w)) -> i_name i = name ->
    In u (user (db w)) -> u_sender u = holder ->
    (exists r, fst (checkIdentityStatus driver_bind (JString name) holder w)
               = Normal (EXISTING r)
               /\ IExistingIdentityResult.membershipType r = ty
               /\ IExistingIdentityResult.status r
                  = (if String.eqb ty "ADMIN" then ADMIN else MEMBER)
               /\ IExistingIdentityResult.identityName r = name
               /\ IExistingIdentityResult.sender r = holder)
    /\ (forall sender, sender <> holder ->
          fst (checkIdentityStatus driver_bind (JString name) sender w) = Normal TAKEN).
Proof.
  intros driver_bind name holder ty w m i u Honly Hm Em Hi Ei Hu Eu.
  destruct (SoleHolderFacts.sole_holder_row (db w) name holder ty m i u
              Honly Hm Em Hi Ei Hu Eu) as (row & Hrow & Hs & Ht & Hn).
  split.
  - exists (existing_of row holder).
    rewrite ResolverFacts.checkIdentityStatus_run. simpl.
    rewrite Hrow. unfold status_of. rewrite Hs, String.eqb_refl.
    split; [reflexivity |]. unfold existing_of; simpl. rewrite Ht. auto.
  - intros sender Hne. rewrite ResolverFacts.checkIdentityStatus_run. simpl.
    rewrite Hrow. unfold status_of. rewrite Hs.
    destruct (String.eqb_spec holder sender); [congruence | reflexivity].
Qed.

Lemma sole_holder_is_recognised_witness :
  fst (checkIdentityStatus Sample.null_driver (JString "alice") "S2"
         (mkWorld SampleStores.one_member []))
  = Normal TAKEN.
Proof.
  assert (Honly : forall ui, In ui (user_identity SampleStores.one_member) ->
                             ui_identity_name ui = "alice" ->
                             ui_user_pubkey ui = "S1" /\ ui_membership_type ui = "ADMIN")
    by (intros ui [<- | []] _; split; reflexivity).
  destruct (sole_holder_is_recognised Sample.null_driver "alice" "S1" "ADMIN"
              (mkWorld SampleStores.one_member [])
              (mkUserIdentityRow "alice" "S1" "ADMIN")
              (mkIdentityRow "alice" true None)
              (mkUserRow "S1" (Some "alice"))
              Honly (or_introl eq_refl) eq_refl (or_introl eq_refl) eq_refl
              (or_introl eq_refl) eq_refl)
    as [_ Hother].
  apply Hother. discriminate.
Defined.

(** * What the handler called by the dispatcher is given *)

Section DispatcherOutcomes.

Variable driver_bind : JSValue -> Completion SqlValue.
Variable parser : string -> Completion Args.
Variable createIdentity : JSValue -> string -> string -> IMessage.t -> Handler.
Variable alreadyTaken : JSValue -> string -> string -> IMessage.t -> Handler.
Variable modifyIdentity :
  IExistingIdentityResult.t -> Args -> string -> IMessage.t -> Handler.
Variable IMessageSource : Type.

Local Abbreviation run_handle :=
  (handle driver_bind parser createIdentity alreadyTaken modifyIdentity IMessageSource).

(** The handler [handle] runs for a status. *)
Local Abbreviation chosen args command message :=
  (fun identityStatus =>
     match identityStatus with
     | AVAILABLE =>
         createIdentity (get_prop args "id") (IMessage.sender message) command message
     | TAKEN =>
         alreadyTaken (get_prop args "id") (IMessage.sender message) command message
     | EXISTING r => modifyIdentity r args command message
     end).

(** The outcome of [handle] once the resolver has returned a status. *)
Lemma handle_outcome command message src w w' args identityStatus :
  JsString.startsWith (JsString.toLowerCase command) "id " = true ->
  parser command = Normal args ->
  isValidIdentity (get_prop args "id") = true ->
  checkIdentityStatus driver_bind (get_prop args "id") (IMessage.sender message) w
    = (Normal identityStatus, w') ->
  fst (run_handle command message src w)
  = fst (chosen args command message identityStatus (db w))
  /\ db (snd (run_handle command message src w))
     = snd (chosen args command message identityStatus (db w))
  /\ reads (snd (run_handle command message src w)) = reads w'.
Proof.
  intros H Hp Hv Hc.
  destruct (checkIdentityStatus_returns _ _ _ _ _ _ Hc) as [Hdb _].
  rewrite (handle_valid_name _ _ _ _ _ _ _ _ _ _ _ H Hp Hv). unfold bindM. rewrite Hc.
  rewrite <- Hdb.
  destruct identityStatus; apply SoleHolderFacts.call_result.
Qed.

(** X11. For a command with a valid name parsed under [id], on a store
    where every membership row on that name is held by one sender with one
    type and its identity row and user row exist: for a message of that
    sender, what [handle] returns or throws and the database it leaves are
    those of modify-identity, called on the database as it was with a
    status record that names the identity, the sender and that membership
    type; for a message of any other sender they are those of
    already-taken. In both cases the read log holds one more read, the
    join bound to the name. *)
Theorem handle_routes_the_sole_holder :
  forall (command : string) (message : IMessage.t) (src : IMessageSource) (w : World)
         (args : Args) (name holder ty : string)
         (m : UserIdentityRow) (i : IdentityRow) (u : UserRow),
    JsString.startsWith (JsString.toLowerCase command) "id " = true ->
    parser command = Normal args ->
    args !! "id" = Some (JString name) ->
    isValidIdentity (JString name) = true ->
    (forall ui, In ui (user_identity (db w)) -> ui_identity_name ui = name ->
                ui_user_pubkey ui = holder /\ ui_membership_type ui = ty) ->
    In m (user_identity (db w)) -> ui_identity_name m = name ->
    In i (identity (db w)) -> i_name i = name ->
    In u (user (db w)) -> u_sender u = holder ->
    reads (snd (run_handle command message src w))
    = (reads w ++ [DbRead (SqlText name)])%list
    /\ (IMessage.sender message = holder ->
        exists r,
          fst (run_handle command message src w)
          = fst (modifyIdentity r args command message (db w))
          /\ db (snd (run_handle command message src w))
             = snd (modifyIdentity r args command message (db w))
          /\ IExistingIdentityResult.identityName r = name
          /\ IExistingIdentityResult.sender r = holder
          /\ IExistingIdentityResult.membershipType r = ty
          /\ IExistingIdentityResult.status r
             = (if String.eqb ty "ADMIN" then ADMIN else MEMBER))
    /\ (IMessage.sender message <> holder ->
        fst (run_handle command message src w)
        = fst (alreadyTaken (JString name) (IMessage.sender message) command message
                 (db w))
        /\ db (snd (run_handle command message src w))
           = snd (alreadyTaken (JString name) (IMessage.sender message) command message
                    (db w))).
Proof.
  intros command message src w args name holder ty m i u
         H Hp Hid Hv Honly Hm Em Hi Ei Hu Eu.
  assert (Hg : get_prop args "id" = JString name) by (unfold get_prop; now rewrite Hid).
  destruct (SoleHolderFacts.sole_holder_row (db w) name holder ty m i u
              Honly Hm Em Hi Ei Hu Eu) as (row & Hrow & Hs & Ht & Hn).
  pose proof (ResolverFacts.checkIdentityStatus_run driver_bind name
                (IMessage.sender message) w) as Hc.
  rewrite Hrow in Hc. unfold status_of in Hc. rewrite Hs in Hc.
  rewrite <- Hg in Hc at 1.
  rewrite <- Hg in Hv.
  destruct (String.eqb_spec holder (IMessage.sender message)) as [E | E].
  - destruct (handle_outcome command message src w _ args _ H Hp Hv Hc)
      as (Hf & Hd & Hr).
    split; [exact Hr |]. split; [| intros C; congruence].
    intros _. exists (existing_of row (IMessage.sender message)).
    split; [exact Hf |]. split; [exact Hd |].
    unfold existing_of; simpl. rewrite Ht. auto.
  - destruct (handle_outcome command message src w _ args _ H Hp Hv Hc)
      as (Hf & Hd & Hr).
    split; [exact Hr |]. split; [intros C; congruence |].
    intros _. rewrite Hg in Hf, Hd. auto.
Qed.

(** C10, amended. When the parser returns no value under the key [id], the
    value validated is [undefined]; [regex.test] coerces it to the string
    "undefined", which matches the pattern, so [isValidIdentity] returns
    true and [handle] never returns nothing for such a command. It calls the
    resolver with the value [undefined] itself, and the outcome is that of
    the handler of the status the resolver returns for that value. The
    string "undefined" is not looked up: when the driver binds [undefined]
    as NULL no row matches, whatever the store holds, and create-identity is
    called; when the driver refuses the value, [handle] throws its error and
    the world is left as it was. *)
Theorem undefined_value_reaches_the_resolver :
  forall (command : string) (message : IMessage.t) (src : IMessageSource) (w : World)
         (args : Args),
    JsString.startsWith (JsString.toLowerCase command) "id " = true ->
    parser command = Normal args ->
    args !! "id" = None ->
    ToString (get_prop args "id") = "undefined"
    /\ isValidIdentity (get_prop args "id") = true
    /\ run_handle command message src w <> (Normal None, w)
    /\ (forall identityStatus w',
           checkIdentityStatus driver_bind JUndefined (IMessage.sender message) w
             = (Normal identityStatus, w') ->
           fst (run_handle command message src w)
           = fst (chosen args command message identityStatus (db w))
           /\ db (snd (run_handle command message src w))
              = snd (chosen args command message identityStatus (db w))
           /\ reads (snd (run_handle command message src w)) = reads w')
    /\ (driver_bind JUndefined = Normal SqlNull ->
        fst (run_handle command message src w)
        = fst (createIdentity JUndefined (IMessage.sender message) command message (db w))
        /\ db (snd (run_handle command message src w))
           = snd (createIdentity JUndefined (IMessage.sender message) command message
                    (db w))
        /\ reads (snd (run_handle command message src w))
           = (reads w ++ [DbRead SqlNull])%list)
    /\ (forall e, driver_bind JUndefined = Thrown e ->
                  run_handle command message src w = (Thrown e, w)).
Proof.
  intros command message src w args H Hp Hid.
  pose proof (get_prop_missing _ _ Hid) as Hu.
  assert (Hv : isValidIdentity (get_prop args "id") = true)
    by (rewrite Hu; exact undefined_is_valid).
  split; [now rewrite Hu |]. split; [exact Hv |]. split; [| split; [| split]].
  - now apply (handle_valid_name_not_unhandled _ _ _ _ _ _ _ _ _ _ args).
  - intros st w' Hc. rewrite <- Hu in Hc.
    exact (handle_outcome command message src w w' args st H Hp Hv Hc).
  - intros Hb.
    assert (Hc : checkIdentityStatus driver_bind (get_prop args "id")
                   (IMessage.sender message) w
                 = (Normal AVAILABLE, mkWorld (db w) (reads w ++ [DbRead SqlNull]))).
    { rewrite (ResolverFacts.checkIdentityStatus_run_bound driver_bind _ SqlNull);
        [| rewrite Hu; exact Hb].
      now rewrite JoinFacts.select_identity_null. }
    destruct (handle_outcome command message src w _ args _ H Hp Hv Hc) as (Hf & Hd & Hr).
    rewrite Hu in Hf, Hd. auto.
  - intros e Hb. apply (handle_unbound _ _ _ _ _ _ command message src w args e H Hp Hv).
    rewrite Hu. exact Hb.
Qed.

End DispatcherOutcomes.

Lemma handle_routes_the_sole_holder_witness :
  fst (handle Sample.null_driver Humanist.parser
         (SampleStores.quiet "created") (SampleStores.quiet "already taken")
         SampleStores.quiet_modify unit "id alice" (IMessage.mk "m9" "S2") tt
         (mkWorld SampleStores.one_member []))
  = fst (SampleStores.quiet "already taken" (JString "alice") "S2" "id alice"
           (IMessage.mk "m9" "S2") SampleStores.one_member).
Proof.
  assert (Honly : forall ui, In ui (user_identity SampleStores.one_member) ->
                             ui_identity_name ui = "alice" ->
                             ui_user_pubkey ui = "S1" /\ ui_membership_type ui = "ADMIN")
    by (intros ui [<- | []] _; split; reflexivity).
  assert (Hparse : Humanist.parser "id alice" = Normal (<["id" := JString "alice"]> ∅))
    by (vm_compute; reflexivity).
  destruct (handle_routes_the_sole_holder Sample.null_driver Humanist.parser
              (SampleStores.quiet "created") (SampleStores.quiet "already taken")
              SampleStores.quiet_modify unit "id alice" (IMessage.mk "m9" "S2") tt
              (mkWorld SampleStores.one_member [])
              (<["id" := JString "alice"]> ∅) "alice" "S1" "ADMIN"
              (mkUserIdentityRow "alice" "S1" "ADMIN")
              (mkIdentityRow "alice" true None)
              (mkUserRow "S1" (Some "alice"))
              eq_refl Hparse eq_refl eq_refl Honly
              (or_introl eq_refl) eq_refl (or_introl eq_refl) eq_refl
              (or_introl eq_refl) eq_refl)
    as (_ & _ & Hother).
  apply Hother. discriminate.
Defined.

Lemma undefined_value_reaches_the_resolver_witness :
  JsString.startsWith (JsString.toLowerCase "Id foo") "id " = true
  /\ Humanist.parser "Id foo" = Normal ∅
  /\ (∅ : Args) !! "id" = None
  /\ isValidIdentity (get_prop ∅ "id") = true
  /\ Sample.handle Sample.strict_driver "Id foo" (IMessage.mk "m6" "S1")
       (mkWorld Sample.two_members [])
     <> (Normal None, mkWorld Sample.two_members []).
Proof.
  assert (Hparse : Humanist.parser "Id foo" = Normal ∅) by (vm_compute; reflexivity).
  split; [reflexivity |]. split; [exact Hparse |]. split; [reflexivity |].
  pose proof (undefined_value_reaches_the_resolver Sample.strict_driver Humanist.parser
                Sample.createIdentity Sample.alreadyTaken Sample.modifyIdentity unit
                "Id foo" (IMessage.mk "m6" "S1") tt (mkWorld Sample.two_members []) ∅
                eq_refl Hparse eq_refl) as (_ & Hv & Hne & _).
  split; [exact Hv | exact Hne].
Defined.

(** C10, as stated, fails. On a store that holds an identity named
    [undefined], held by [S1], the literal name resolves for [S1] to an
    EXISTING status; but for the command [Id foo] of [S1], for which the
    parser returns no [id], the resolver is called with the value
    [undefined]: with a driver that binds it as NULL the read is bound to
    NULL, no row matches, the status is AVAILABLE and create-identity is
    called, where the command [id undefined] is handed to modify-identity. *)
Lemma literal_undefined_is_not_looked_up :
  Humanist.parser "Id foo" = Normal ∅
  /\ fst (checkIdentityStatus Sample.null_driver (JString "undefined") "S1"
            (mkWorld SampleStores.named_undefined []))
     = Normal (EXISTING (IExistingIdentityResult.mk ADMIN true "undefined" "ADMIN"
                           (Some "undefined") "S1"))
  /\ checkIdentityStatus Sample.null_driver JUndefined "S1"
       (mkWorld SampleStores.named_undefined [])
     = (Normal AVAILABLE, mkWorld SampleStores.named_undefined [DbRead SqlNull])
  /\ handle Sample.null_driver Humanist.parser
       (SampleStores.quiet "created") (SampleStores.quiet "already taken")
       SampleStores.quiet_modify unit "Id foo" (IMessage.mk "m10" "S1") tt
       (mkWorld SampleStores.named_undefined [])
     = (Normal (Some (mkResponse "created" "m10")),
        mkWorld SampleStores.named_undefined [DbRead SqlNull])
  /\ handle Sample.null_driver Humanist.parser
       (SampleStores.quiet "created") (SampleStores.quiet "already taken")
       SampleStores.quiet_modify unit "id undefined" (IMessage.mk "m11" "S1") tt
       (mkWorld SampleStores.named_undefined [])
     = (Normal (Some (mkResponse "yours" "m11")),
        mkWorld SampleStores.named_undefined [DbRead (SqlText "undefined")]).
Proof. repeat split; vm_compute; reflexivity. Qed.
